(** * Hashtag generator: the scoring pipeline of [HashtagGenerator.tsx]

    A shallow embedding of the three pure pieces of the component
    ([extractKeywords], [generateCategoryHashtags] and the merge expression
    of [generateHashtags]) together with the small part of the JavaScript
    run-time they rely on: strings, numbers, plain objects used as
    dictionaries, [Array.prototype.sort] and friends.

    Conventions of the model.
    - A JavaScript string is a [string]; its characters are the code points
      U+0000 .. U+00FF (Latin-1), on which [toLowerCase] is character-wise.
    - A JavaScript number is a [number]: a finite double is represented by
      the rational it stands for, next to the two infinities and [NaN].
      Signed zeros and rounding are not represented.
    - Arrays are lists. *)

From Stdlib Require Import List String Ascii Bool Arith ZArith NArith QArith.
From Stdlib Require Import Lia Lqa Permutation Sorted DecimalString.
Import ListNotations.

Local Close Scope Q_scope.
Local Open Scope string_scope.
Local Open Scope list_scope.

(* ================================================================== *)
(** * Strings *)

Module JsString.

(** Character-wise image of a string. *)
Fixpoint map_chars (f : ascii -> ascii) (s : string) : string :=
  match s with
  | EmptyString => EmptyString
  | String c s' => String (f c) (map_chars f s')
  end.

Definition code (c : ascii) : N := N_of_ascii c.

(** [toLowerCase] on one Latin-1 character: [A-Z] and the accented
    capitals U+00C0 .. U+00DE (the multiplication sign U+00D7 apart) move
    up by 32; everything else is its own lower case. *)
Definition lower_char (c : ascii) : ascii :=
  let n := code c in
  if ((65 <=? n) && (n <=? 90))%N
     || ((192 <=? n) && (n <=? 222) && negb (n =? 215))%N
  then ascii_of_N (n + 32)
  else c.

(** [String.prototype.toLowerCase]. *)
Definition toLowerCase (s : string) : string := map_chars lower_char s.

(** The regular-expression class [\w]: [[A-Za-z0-9_]]. *)
Definition is_word (c : ascii) : bool :=
  let n := code c in
  (((48 <=? n) && (n <=? 57)) || ((65 <=? n) && (n <=? 90))
   || (n =? 95) || ((97 <=? n) && (n <=? 122)))%N.

(** The regular-expression class [\s] restricted to Latin-1: TAB, LF, VT,
    FF, CR, SPACE and the no-break space U+00A0. *)
Definition is_space (c : ascii) : bool :=
  let n := code c in
  (((9 <=? n) && (n <=? 13)) || (n =? 32) || (n =? 160))%N.

Definition space : ascii := " "%char.

(** [s.replace(/[^\w\s]/g, ' ')]: every character that is neither a word
    character nor white space becomes one space. *)
Definition replace_non_word_space (s : string) : string :=
  map_chars (fun c => if is_word c || is_space c then c else space) s.

(** [s.split(/\s+/)].  The pieces are the maximal stretches without white
    space; a string that starts (ends) with white space yields an empty
    first (last) piece, and the empty string yields one empty piece.
    [in_run] tells that the previous character was white space, so that a
    run of several separators closes one piece only. *)
Fixpoint split_from (in_run : bool) (s : string) : list string :=
  match s with
  | EmptyString => [EmptyString]
  | String c s' =>
      if is_space c then
        if in_run then split_from true s'
        else EmptyString :: split_from true s'
      else
        match split_from false s' with
        | piece :: pieces => String c piece :: pieces
        | [] => [String c EmptyString]
        end
  end.

Definition split_whitespace (s : string) : list string := split_from false s.

(** [s.includes(k)]: [k] occurs in [s] at some position. *)
Fixpoint includes (s k : string) : bool :=
  prefix k s
  || match s with
     | EmptyString => false
     | String _ s' => includes s' k
     end.

(** [arr.includes(x)] on an array of strings. *)
Definition array_includes (arr : list string) (x : string) : bool :=
  existsb (String.eqb x) arr.

(** [!s.trim()]: nothing but white space. *)
Fixpoint is_blank (s : string) : bool :=
  match s with
  | EmptyString => true
  | String c s' => is_space c && is_blank s'
  end.

End JsString.

Import JsString.

(* ================================================================== *)
(** * Numbers *)

Module JsNumber.

Inductive number : Type :=
| Fin (q : Q)
| PInf
| NInf
| NaN.

Definition of_nat (n : nat) : number := Fin (inject_Z (Z.of_nat n)).

Definition Qpos (q : Q) : bool := negb (Qle_bool q 0).
Definition Qneg (q : Q) : bool := negb (Qle_bool 0 q).

(** [x - y] *)
Definition num_sub (x y : number) : number :=
  match x, y with
  | NaN, _ | _, NaN => NaN
  | Fin p, Fin q => Fin (p - q)
  | PInf, PInf | NInf, NInf => NaN
  | PInf, _ | _, NInf => PInf
  | NInf, _ | _, PInf => NInf
  end.

(** [x * y] *)
Definition num_mul (x y : number) : number :=
  match x, y with
  | NaN, _ | _, NaN => NaN
  | Fin p, Fin q => Fin (p * q)
  | Fin p, PInf | PInf, Fin p =>
      if Qpos p then PInf else if Qneg p then NInf else NaN
  | Fin p, NInf | NInf, Fin p =>
      if Qpos p then NInf else if Qneg p then PInf else NaN
  | PInf, PInf | NInf, NInf => PInf
  | PInf, NInf | NInf, PInf => NInf
  end.

(** [x / y]; a finite non-zero number over zero is an infinity and [0 / 0]
    is [NaN]: no division raises. *)
Definition num_div (x y : number) : number :=
  match x, y with
  | NaN, _ | _, NaN => NaN
  | Fin p, Fin q =>
      if Qeq_bool q 0
      then if Qpos p then PInf else if Qneg p then NInf else NaN
      else Fin (p / q)
  | Fin _, (PInf | NInf) => Fin 0
  | (PInf | NInf), (PInf | NInf) => NaN
  | PInf, Fin q => if Qneg q then NInf else PInf
  | NInf, Fin q => if Qneg q then PInf else NInf
  end.

(** [Math.min(x, y)] *)
Definition num_min (x y : number) : number :=
  match x, y with
  | NaN, _ | _, NaN => NaN
  | NInf, _ | _, NInf => NInf
  | PInf, z | z, PInf => z
  | Fin p, Fin q => if Qle_bool p q then Fin p else Fin q
  end.

(** The test [v > 0] that [Array.prototype.sort] applies to the value of
    its comparator; [NaN] counts as [+0]. *)
Definition is_positive (v : number) : bool :=
  match v with
  | Fin q => Qpos q
  | PInf => true
  | NInf | NaN => false
  end.

Definition is_finite (v : number) : Prop :=
  match v with Fin _ => True | _ => False end.

(** The rational a finite number stands for. *)
Definition rational (v : number) : Q :=
  match v with Fin q => q | _ => 0 end.

End JsNumber.

Import JsNumber.

(* ================================================================== *)
(** * Arrays *)

Module JsArray.

Section Sort.
Context {A : Type}.
Variable comparefn : A -> A -> number.

(** [x] stood before every element of [l]; it moves to the right of the
    elements that the comparator puts strictly before it. *)
Fixpoint insert (x : A) (l : list A) : list A :=
  match l with
  | [] => [x]
  | y :: l' =>
      if is_positive (comparefn x y) then y :: insert x l' else x :: l
  end.

(** [arr.sort(comparefn)].  The sort of the language is stable, so with
    a consistent comparator its result is the one computed here.  When
    the comparator is not consistent (it answers [NaN] for some pairs
    only) the language leaves the order to the engine, and this is one
    admissible engine. *)
Fixpoint sort (l : list A) : list A :=
  match l with
  | [] => []
  | x :: l' => insert x (sort l')
  end.
End Sort.

(** [arr.slice(0, n)] for a count [n]. *)
Definition slice0 {A : Type} (n : nat) (l : list A) : list A := firstn n l.

(** [arr.findIndex(p)], with [-1] when no element passes. *)
Fixpoint findIndex_from {A : Type} (p : A -> bool) (i : Z) (l : list A) : Z :=
  match l with
  | [] => (-1)%Z
  | x :: l' => if p x then i else findIndex_from p (i + 1)%Z l'
  end.

Definition findIndex {A : Type} (p : A -> bool) (l : list A) : Z :=
  findIndex_from p 0%Z l.

(** [arr.filter((x, index, arr) => f x index arr)] *)
Fixpoint filter_from {A : Type} (f : A -> Z -> bool) (i : Z) (l : list A)
  : list A :=
  match l with
  | [] => []
  | x :: l' =>
      if f x i then x :: filter_from f (i + 1)%Z l'
      else filter_from f (i + 1)%Z l'
  end.

Definition filter_indexed {A : Type} (f : A -> Z -> list A -> bool)
  (arr : list A) : list A :=
  filter_from (fun x i => f x i arr) 0%Z arr.

End JsArray.

Import JsArray.

(* ================================================================== *)
(** * Plain objects used as dictionaries *)

Module JsObject.

(** What a property of [wordCount] can hold: a count, or the text that
    results from adding [1] to a function inherited from
    [Object.prototype].  [VText f k] is the string
    [function f() { [native code] }] followed by [k] characters [1]. *)
Inductive value : Type :=
| VNum (n : nat)
| VText (f : string) (k : nat).

(** [ToNumber]: the text of a function is not a numeric literal. *)
Definition to_number (v : value) : number :=
  match v with
  | VNum n => of_nat n
  | VText _ _ => NaN
  end.

(** The own properties of an object literal, in creation order. *)
Definition object : Type := list (string * value).

Definition empty : object := [].

Fixpoint own (o : object) (k : string) : option value :=
  match o with
  | [] => None
  | (k', v) :: o' => if String.eqb k k' then Some v else own o' k
  end.

(** Writing an own data property: an existing key keeps its place, a new
    key goes last. *)
Fixpoint define (o : object) (k : string) (v : value) : object :=
  match o with
  | [] => [(k, v)]
  | (k', v') :: o' =>
      if String.eqb k k' then (k', v) :: o' else (k', v') :: define o' k v
  end.

(** The function-valued properties every object literal inherits from
    [Object.prototype], with the name each function prints. *)
Definition prototype_functions : list (string * string) :=
  [ ("constructor", "Object");
    ("__defineGetter__", "__defineGetter__");
    ("__defineSetter__", "__defineSetter__");
    ("hasOwnProperty", "hasOwnProperty");
    ("__lookupGetter__", "__lookupGetter__");
    ("__lookupSetter__", "__lookupSetter__");
    ("isPrototypeOf", "isPrototypeOf");
    ("propertyIsEnumerable", "propertyIsEnumerable");
    ("toString", "toString");
    ("valueOf", "valueOf");
    ("toLocaleString", "toLocaleString") ].

Fixpoint inherited_function (tbl : list (string * string)) (k : string)
  : option string :=
  match tbl with
  | [] => None
  | (k', f) :: tbl' =>
      if String.eqb k k' then Some f else inherited_function tbl' k
  end.

(** The accessor [__proto__] of [Object.prototype]: reading it gives the
    prototype object, and its setter ignores a value that is neither an
    object nor [null]. *)
Definition proto_key : string := "__proto__".

(** [o[k] = (o[k] || 0) + 1] *)
Definition increment (o : object) (k : string) : object :=
  match own o k with
  | Some (VNum n) => define o k (VNum (n + 1))
  | Some (VText f j) => define o k (VText f (j + 1))
  | None =>
      if String.eqb k proto_key then o
      else
        match inherited_function prototype_functions k with
        | Some f => define o k (VText f 1)
        | None => define o k (VNum 1)
        end
  end.

Definition is_digit (c : ascii) : bool :=
  ((48 <=? code c) && (code c <=? 57))%N.

Fixpoint digits_value (acc : N) (s : string) : option N :=
  match s with
  | EmptyString => Some acc
  | String c s' =>
      if is_digit c then digits_value (acc * 10 + (code c - 48))%N s'
      else None
  end.

(** A key is an array index when it is the decimal writing, without
    leading zero, of an integer below [2^32 - 1]. *)
Definition array_index (k : string) : option N :=
  match k with
  | EmptyString => None
  | String c rest =>
      if (code c =? 48)%N && negb (String.eqb rest EmptyString) then None
      else
        match digits_value 0 k with
        | Some n => if (n <? 4294967295)%N then Some n else None
        | None => None
        end
  end.

Fixpoint insert_index (n : N) (e : string * value)
  (l : list (N * (string * value))) : list (N * (string * value)) :=
  match l with
  | [] => [(n, e)]
  | (m, e') :: l' =>
      if (n <? m)%N then (n, e) :: l else (m, e') :: insert_index n e l'
  end.

(** The own properties whose key is an array index, by ascending index. *)
Fixpoint index_entries (o : object) : list (N * (string * value)) :=
  match o with
  | [] => []
  | (k, v) :: o' =>
      match array_index k with
      | Some n => insert_index n (k, v) (index_entries o')
      | None => index_entries o'
      end
  end.

Definition named_entries (o : object) : list (string * value) :=
  filter (fun e => match array_index (fst e) with
                   | Some _ => false
                   | None => true
                   end) o.

(** [Object.entries(o)]: array-index keys first, by ascending index, then
    the other keys in creation order. *)
Definition entries (o : object) : list (string * value) :=
  map snd (index_entries o) ++ named_entries o.

End JsObject.

Import JsObject.

(* ================================================================== *)
(** * The component *)

Record GeneratedHashtag : Type := {
  tag : string;
  confidence : number
}.

Definition push {A : Type} (arr : list A) (x : A) : list A := arr ++ [x].

(** ** [extractKeywords] *)

Definition commonWords : list string :=
  [ "that"; "this"; "with"; "from"; "they"; "have"; "been"; "were"; "will";
    "would"; "could"; "should"; "about"; "there"; "their"; "where"; "when";
    "what"; "which"; "while"; "through"; "during"; "before"; "after"; "above";
    "below"; "between"; "into"; "onto"; "upon"; "within"; "without" ].

(** The predicate of the [filter] call. *)
Definition meaningful (word : string) : bool :=
  (3 <? String.length word)%nat && negb (array_includes commonWords word).

Definition words (text : string) : list string :=
  filter meaningful
    (split_whitespace (replace_non_word_space (toLowerCase text))).

(** The object [wordCount] once the [forEach] loop has run. *)
Definition wordCount (text : string) : object :=
  fold_left increment (words text) empty.

(** The comparator [([, a], [, b]) => b - a]. *)
Definition by_count (x y : string * value) : number :=
  num_sub (to_number (snd y)) (to_number (snd x)).

(** The arrow function given to [map]; [total] is [words.length]. *)
Definition keyword_hashtag (total : nat) (e : string * value)
  : GeneratedHashtag :=
  {| tag := "#" ++ fst e;
     confidence :=
       num_min (num_mul (num_div (to_number (snd e)) (of_nat total)) (Fin 2))
               (Fin (9 # 10)) |}.

Definition extractKeywords (text : string) : list GeneratedHashtag :=
  map (keyword_hashtag (List.length (words text)))
    (slice0 12 (sort by_count (entries (wordCount text)))).

(** ** [generateCategoryHashtags] *)

(** [Object.entries(categories)]: no key is an array index, so the entries
    come in the order of the literal. *)
Definition categories : list (string * list string) :=
  [ ("technology", ["tech"; "ai"; "software"; "digital"; "innovation";
                    "coding"; "development"; "startup"; "algorithm"]);
    ("business", ["business"; "entrepreneur"; "marketing"; "sales"; "profit";
                  "company"; "corporate"; "strategy"]);
    ("lifestyle", ["life"; "living"; "daily"; "routine"; "habit"; "wellness";
                   "balance"; "personal"]);
    ("fitness", ["fitness"; "workout"; "exercise"; "health"; "gym";
                 "training"; "muscle"; "strength"]);
    ("travel", ["travel"; "trip"; "vacation"; "journey"; "adventure";
                "explore"; "destination"; "tourism"]);
    ("food", ["food"; "recipe"; "cooking"; "delicious"; "meal"; "restaurant";
              "cuisine"; "flavor"]);
    ("education", ["learn"; "education"; "study"; "knowledge"; "skill";
                   "course"; "training"; "development"]);
    ("creativity", ["creative"; "art"; "design"; "inspiration"; "idea";
                    "innovation"; "artistic"; "imagination"]) ].

Definition matches (lowerText : string) (keywords : list string)
  : list string :=
  filter (fun keyword => includes lowerText keyword) keywords.

Definition category_hashtag (category : string) (matched total : nat)
  : GeneratedHashtag :=
  {| tag := "#" ++ category;
     confidence := num_div (of_nat matched) (of_nat total) |}.

Definition specific_hashtag (keyword : string) : GeneratedHashtag :=
  {| tag := "#" ++ keyword; confidence := Fin (7 # 10) |}.

(** One turn of the [forEach] over the categories: the array
    [matchedCategories] before and after. *)
Definition visit_category (lowerText : string)
  (matchedCategories : list GeneratedHashtag)
  (entry : string * list string) : list GeneratedHashtag :=
  let (category, keywords) := entry in
  let ms := matches lowerText keywords in
  if (0 <? List.length ms)%nat then
    fold_left (fun arr keyword => push arr (specific_hashtag keyword))
      (slice0 2 ms)
      (push matchedCategories
         (category_hashtag category (List.length ms) (List.length keywords)))
  else matchedCategories.

(** The array [matchedCategories] when the loop is over. *)
Definition matchedCategories (text : string) : list GeneratedHashtag :=
  fold_left (visit_category (toLowerCase text)) categories [].

(** The comparator [(a, b) => b.confidence - a.confidence]. *)
Definition by_confidence (a b : GeneratedHashtag) : number :=
  num_sub (confidence b) (confidence a).

Definition generateCategoryHashtags (text : string) : list GeneratedHashtag :=
  slice0 8 (sort by_confidence (matchedCategories text)).

(** ** [generateHashtags] *)

(** [h.tag.toLowerCase() === hashtag.tag.toLowerCase()] *)
Definition same_tag (hashtag h : GeneratedHashtag) : bool :=
  String.eqb (toLowerCase (tag h)) (toLowerCase (tag hashtag)).

(** The predicate of the [filter] call: the element is the first of the
    array with its tag. *)
Definition first_of_its_tag (hashtag : GeneratedHashtag) (index : Z)
  (arr : list GeneratedHashtag) : bool :=
  (findIndex (same_tag hashtag) arr =? index)%Z.

(** The [filter] step of the expression bound to [allHashtags]. *)
Definition distinct (arr : list GeneratedHashtag) : list GeneratedHashtag :=
  filter_indexed first_of_its_tag arr.

(** The expression bound to [allHashtags], as a function of the two arrays
    it spreads and of the bound of its [slice], which the source fixes
    to 15. *)
Definition merge (keywordHashtags categoryHashtags : list GeneratedHashtag)
  (limit : nat) : list GeneratedHashtag :=
  slice0 limit
    (sort by_confidence (distinct (keywordHashtags ++ categoryHashtags))).

Definition allHashtags (inputText : string) : list GeneratedHashtag :=
  let keywordHashtags := extractKeywords inputText in
  let categoryHashtags := generateCategoryHashtags inputText in
  merge keywordHashtags categoryHashtags 15.

(** The state of the component and the title of the toast it shows. *)
Record State : Type := {
  inputText : string;
  hashtags : list GeneratedHashtag;
  isLoading : bool
}.

(** One run of the handler.  [modelLoaded] tells whether the embedding
    model could be loaded and run, that is, whether the [try] block ran to
    its end or the [catch] block took over. *)
Definition generateHashtags (modelLoaded : bool) (st : State)
  : State * string :=
  if is_blank (inputText st) then (st, "Enter some text")
  else if modelLoaded then
    ({| inputText := inputText st;
        hashtags := allHashtags (inputText st);
        isLoading := false |}, "Hashtags generated!")
  else
    ({| inputText := inputText st;
        hashtags := allHashtags (inputText st);
        isLoading := false |}, "Hashtags generated!").

(** ** [copyHashtag], [copyAllHashtags] and what is rendered *)

(** [arr.join(sep)] on an array of strings. *)
Fixpoint join (sep : string) (arr : list string) : string :=
  match arr with
  | [] => EmptyString
  | [x] => x
  | x :: arr' => (x ++ sep ++ join sep arr')%string
  end.

(** A count inside a template literal: its decimal writing. *)
Definition decimal (n : nat) : string := NilZero.string_of_uint (Nat.to_uint n).

Record Toast : Type := {
  title : string;
  description : string
}.

(** What the two copy handlers act on: the text of the clipboard and the
    toasts shown so far.  [navigator.clipboard.writeText] is taken to be
    granted; the handlers do not look at the promise it returns. *)
Record Browser : Type := {
  clipboard : string;
  toasts : list Toast
}.

Definition copyHashtag (hashtag : string) (b : Browser) : Browser :=
  {| clipboard := hashtag;
     toasts := push (toasts b)
                 {| title := "Copied!";
                    description := hashtag ++ " copied to clipboard" |} |}.

Definition copyAllHashtags (st : State) (b : Browser) : Browser :=
  let allTags := join " " (map tag (hashtags st)) in
  {| clipboard := allTags;
     toasts := push (toasts b)
                 {| title := "All hashtags copied!";
                    description :=
                      decimal (List.length (hashtags st))
                      ++ " hashtags copied to clipboard" |} |}.

(** The attribute [disabled] of the button that runs [generateHashtags]. *)
Definition generate_disabled (st : State) : bool :=
  isLoading st || is_blank (inputText st).

(** The condition [hashtags.length > 0] under which the results card, with
    its badges and its button [Copy All], is rendered. *)
Definition results_shown (st : State) : bool :=
  (0 <? List.length (hashtags st))%nat.

(* ================================================================== *)
(** * Vocabulary of the statements *)

(** The key under which two tags are the same tag. *)
Definition tag_key (h : GeneratedHashtag) : string := toLowerCase (tag h).

(** A hashtag whose confidence is a finite number. *)
Definition finite_confidence (h : GeneratedHashtag) : Prop :=
  is_finite (confidence h).

(** [x] may stand before [y] in a list sorted by descending confidence. *)
Definition confidence_ge (x y : GeneratedHashtag) : Prop :=
  (rational (confidence y) <= rational (confidence x))%Q.

(** The entries of a list whose confidence is the number [q]. *)
Definition with_confidence (q : Q) (l : list GeneratedHashtag)
  : list GeneratedHashtag :=
  filter (fun h => Qeq_bool (rational (confidence h)) q) l.

(** The tokenizer as the specification words it: every character that is
    not an (unaccented) letter, a digit or an underscore becomes a space,
    the result is cut at runs of white space, and the tokens of length at
    most 3 and the stop words are discarded. *)
Definition is_letter (c : ascii) : bool :=
  (((65 <=? code c) && (code c <=? 90))
   || ((97 <=? code c) && (code c <=? 122)))%N.

Definition is_underscore (c : ascii) : bool := (code c =? 95)%N.

Definition strip_non_alphanumeric (s : string) : string :=
  map_chars
    (fun c => if is_letter c || is_digit c || is_underscore c then c
              else space) s.

Definition discarded (token : string) : bool :=
  (String.length token <=? 3)%nat || existsb (String.eqb token) commonWords.

Definition spec_tokens (text : string) : list string :=
  filter (fun token => negb (discarded token))
    (split_whitespace (strip_non_alphanumeric (toLowerCase text))).

(** What one category contributes, as the specification words it: nothing
    when no keyword matches; otherwise its own tag, then the tags of the
    first two matches. *)
Definition category_block (lowerText : string) (entry : string * list string)
  : list GeneratedHashtag :=
  let ms := matches lowerText (snd entry) in
  match ms with
  | [] => []
  | _ :: _ =>
      category_hashtag (fst entry) (List.length ms) (List.length (snd entry))
      :: map specific_hashtag (firstn 2 ms)
  end.

(** Number of occurrences of a token. *)
Definition occurrences (w : string) (ws : list string) : nat :=
  count_occ string_dec ws w.

(** The entries of [l] whose tag occurs neither in [seen] nor earlier in
    [l]: what "keeping the first occurrence" means. *)
Fixpoint first_occurrences (seen l : list GeneratedHashtag)
  : list GeneratedHashtag :=
  match l with
  | [] => []
  | x :: l' =>
      if existsb (same_tag x) seen then first_occurrences (seen ++ [x]) l'
      else x :: first_occurrences (seen ++ [x]) l'
  end.

(** Two small arrays on which the statements about the merge are
    exercised: the second repeats, in lower case, a tag of the first. *)
Definition upper_ai : GeneratedHashtag :=
  {| tag := "#AI"; confidence := Fin (1 # 2) |}.

Definition sample_keywords : list GeneratedHashtag := [upper_ai].

Definition sample_categories : list GeneratedHashtag :=
  [ {| tag := "#ai"; confidence := Fin (7 # 10) |};
    {| tag := "#tech"; confidence := Fin (7 # 10) |} ].

(** A text made of white space only: a tab, a line feed and two spaces. *)
Definition blank_text : string :=
  String "009"%char (String "010"%char "  ").

(** The confidence the specification gives to a token that occurs [c]
    times among [total] tokens: the smaller of [c / total * 2] and [0.9]. *)
Definition frequency_confidence (c total : nat) : Q :=
  let ratio := (inject_Z (Z.of_nat c) / inject_Z (Z.of_nat total) * 2)%Q in
  if Qle_bool ratio (9 # 10) then ratio else (9 # 10)%Q.

(** A confidence that is a number of the interval from 0 to 1. *)
Definition unit_confidence (h : GeneratedHashtag) : Prop :=
  exists q, confidence h = Fin q /\ (0 <= q <= 1)%Q.

(** Every keyword of the table is its own lower case. *)
Definition keywords_lower_case : bool :=
  forallb
    (fun entry : string * list string =>
       forallb (fun keyword => String.eqb (toLowerCase keyword) keyword)
         (snd entry))
    categories.

(** A string without any of the capitals [A-Z]. *)
Definition is_upper (c : ascii) : bool :=
  ((65 <=? code c) && (code c <=? 90))%N.

Fixpoint lower_only (s : string) : bool :=
  match s with
  | EmptyString => true
  | String c s' => negb (is_upper c) && lower_only s'
  end.

(** A character of [[a-z0-9_]], and a string made of such characters. *)
Definition is_plain (c : ascii) : bool := is_word c && negb (is_upper c).

Fixpoint plain (s : string) : bool :=
  match s with
  | EmptyString => true
  | String c s' => is_plain c && plain s'
  end.

(** A string made of characters of [[a-z0-9_]] and of white space. *)
Fixpoint plain_or_space (s : string) : bool :=
  match s with
  | EmptyString => true
  | String c s' => (is_plain c || is_space c) && plain_or_space s'
  end.

(** The keys of an object that are array indices. *)
Definition is_index_entry (e : string * value) : bool :=
  match array_index (fst e) with
  | Some _ => true
  | None => false
  end.

(** The count a property of the count table stands for. *)
Definition count_key (e : string * value) : Q := rational (to_number (snd e)).

Definition counted (e : string * value) : Prop :=
  is_finite (to_number (snd e)).

(** Every name of the category table, categories and keywords alike, is a
    non-empty string of [[a-z0-9_]]. *)
Definition table_plain : bool :=
  forallb
    (fun entry : string * list string =>
       plain (fst entry) && negb (String.eqb (fst entry) EmptyString)
       && forallb (fun keyword =>
                     plain keyword && negb (String.eqb keyword EmptyString))
            (snd entry))
    categories.

(** No keyword list of the table is longer than 9. *)
Definition table_short : bool :=
  forallb (fun entry : string * list string =>
             (List.length (snd entry) <=? 9)%nat) categories.

(** A text with 13 distinct tokens, the first of them twice. *)
Definition crowded_text : string :=
  "alpha alpha bravo charlie delta1 echo1 foxtrot golf1 hotel india juliet kilo1 lima1 mike1".

(** A string without white space. *)
Fixpoint spaceless (s : string) : bool :=
  match s with
  | EmptyString => true
  | String c s' => negb (is_space c) && spaceless s'
  end.

(** A confidence that is a number from 1/9 to 1. *)
Definition ninth_confidence (h : GeneratedHashtag) : Prop :=
  exists q, confidence h = Fin q /\ (1 # 9 <= q <= 1)%Q.

(* ================================================================== *)
(** * Facts about the run-time model *)

(** ** Sorting *)

Section SortFacts.
Context {A : Type}.
Variable comparefn : A -> A -> number.

Lemma insert_perm (x : A) (l : list A) :
  Permutation (insert comparefn x l) (x :: l).
Proof.
  induction l as [|y l IH]; simpl.
  - reflexivity.
  - destruct (is_positive (comparefn x y)).
    + rewrite IH. apply perm_swap.
    + reflexivity.
Qed.

Lemma sort_perm (l : list A) : Permutation (sort comparefn l) l.
Proof.
  induction l as [|x l IH]; simpl.
  - constructor.
  - rewrite insert_perm. now constructor.
Qed.

Lemma sort_length (l : list A) :
  List.length (sort comparefn l) = List.length l.
Proof. apply Permutation_length, sort_perm. Qed.

Lemma sort_In (l : list A) (x : A) : In x (sort comparefn l) <-> In x l.
Proof.
  split; apply Permutation_in; [|symmetry]; apply sort_perm.
Qed.

Lemma sort_Forall (P : A -> Prop) (l : list A) :
  Forall P l -> Forall P (sort comparefn l).
Proof.
  intros H. eapply Permutation_Forall; [symmetry; apply sort_perm | exact H].
Qed.

(** The comparator orders by a rational key on the elements that
    satisfy [ok]: a positive answer means that the second argument has
    the larger key and goes first. *)
Variable key : A -> Q.
Variable ok : A -> Prop.
Hypothesis comparefn_key :
  forall x y, ok x -> ok y ->
    (is_positive (comparefn x y) = true <-> (key x < key y)%Q).

Let descending (x y : A) : Prop := (key y <= key x)%Q.

Lemma insert_sorted (x : A) (l : list A) :
  ok x -> Forall ok l ->
  StronglySorted descending l ->
  StronglySorted descending (insert comparefn x l).
Proof.
  intros Hx Hl Hs. induction l as [|y l IH]; simpl.
  - repeat constructor.
  - inversion Hl as [|? ? Hy Hl']; subst.
    inversion Hs as [|? ? Hs' Hall]; subst.
    destruct (is_positive (comparefn x y)) eqn:E.
    + apply comparefn_key in E; trivial.
      constructor; [now apply IH|].
      eapply Permutation_Forall; [symmetry; apply insert_perm|].
      constructor; [|exact Hall].
      unfold descending. now apply Qlt_le_weak.
    + assert (Hle : (key y <= key x)%Q).
      { apply Qnot_lt_le. intros Hlt.
        apply comparefn_key in Hlt; trivial. congruence. }
      constructor; [now constructor|].
      constructor; [exact Hle|].
      eapply Forall_impl; [|exact Hall].
      intros z Hz. unfold descending in *. now apply Qle_trans with (key y).
Qed.

Lemma sort_sorted (l : list A) :
  Forall ok l -> StronglySorted descending (sort comparefn l).
Proof.
  induction 1 as [|x l Hx Hl IH]; simpl.
  - constructor.
  - apply insert_sorted; trivial. now apply sort_Forall.
Qed.

(** Stability: the elements of one key keep their order. *)
Lemma insert_same_key (q : Q) (x : A) (l : list A) :
  ok x -> Forall ok l ->
  filter (fun z => Qeq_bool (key z) q) (insert comparefn x l)
  = filter (fun z => Qeq_bool (key z) q) (x :: l).
Proof.
  intros Hx Hl. induction Hl as [|y l Hy Hl IH]; [reflexivity|].
  cbn [insert]. destruct (is_positive (comparefn x y)) eqn:E; [|reflexivity].
  apply comparefn_key in E; trivial.
  cbn [filter] in *. rewrite IH.
  destruct (Qeq_bool (key x) q) eqn:Ex, (Qeq_bool (key y) q) eqn:Ey;
    try reflexivity.
  apply Qeq_bool_iff in Ex, Ey. rewrite Ex, Ey in E.
  now apply Qlt_irrefl in E.
Qed.

Lemma sort_same_key (q : Q) (l : list A) :
  Forall ok l ->
  filter (fun z => Qeq_bool (key z) q) (sort comparefn l)
  = filter (fun z => Qeq_bool (key z) q) l.
Proof.
  induction 1 as [|x l Hx Hl IH]; [reflexivity|].
  cbn [sort]. rewrite insert_same_key; trivial.
  - cbn [filter]. now rewrite IH.
  - now apply sort_Forall.
Qed.
End SortFacts.

(** ** Prefixes *)

Section PrefixFacts.
Context {A : Type}.

Lemma firstn_In (n : nat) (l : list A) (x : A) :
  In x (firstn n l) -> In x l.
Proof.
  intros H. rewrite <- (firstn_skipn n l). apply in_or_app. now left.
Qed.

Lemma firstn_NoDup (n : nat) (l : list A) : NoDup l -> NoDup (firstn n l).
Proof.
  intros H. rewrite <- (firstn_skipn n l) in H.
  now apply NoDup_app_remove_r in H.
Qed.

Lemma firstn_sorted (R : A -> A -> Prop) (n : nat) (l : list A) :
  StronglySorted R l -> StronglySorted R (firstn n l).
Proof.
  intros H. revert n. induction H as [|x l Hs IH Hall]; intros [|n]; simpl;
    try constructor.
  - apply IH.
  - rewrite Forall_forall in *. intros y Hy. apply Hall.
    now apply firstn_In in Hy.
Qed.

Lemma firstn_filter_prefix (p : A -> bool) (n : nat) (l : list A) :
  filter p l = filter p (firstn n l) ++ filter p (skipn n l).
Proof. now rewrite <- filter_app, firstn_skipn. Qed.
End PrefixFacts.

(** ** [findIndex] and the [filter] that keeps first occurrences *)

Lemma findIndex_from_self {A : Type} (p : A -> bool) (x : A)
  (pre rest : list A) (i : Z) :
  p x = true ->
  (findIndex_from p i (pre ++ x :: rest) =? i + Z.of_nat (List.length pre))%Z
  = negb (existsb p pre).
Proof.
  intros Hx. revert i. induction pre as [|y pre IH]; intros i; simpl.
  - rewrite Hx. rewrite Z.add_0_r. apply Z.eqb_refl.
  - destruct (p y); simpl.
    + apply Z.eqb_neq. lia.
    + rewrite <- (IH (i + 1)%Z). f_equal. lia.
Qed.

Lemma same_tag_refl (h : GeneratedHashtag) : same_tag h h = true.
Proof. apply String.eqb_refl. Qed.

Lemma same_tag_key (h x : GeneratedHashtag) :
  same_tag h x = true <-> tag_key x = tag_key h.
Proof. apply String.eqb_eq. Qed.

Lemma same_tag_sym (h x : GeneratedHashtag) : same_tag h x = same_tag x h.
Proof. apply String.eqb_sym. Qed.

Lemma filter_from_first_occurrences (seen l : list GeneratedHashtag) :
  filter_from (fun x i => first_of_its_tag x i (seen ++ l))
    (Z.of_nat (List.length seen)) l
  = first_occurrences seen l.
Proof.
  revert seen. induction l as [|x l IH]; intros seen; [reflexivity|].
  cbn [filter_from first_occurrences].
  unfold first_of_its_tag at 1, findIndex.
  pose proof (findIndex_from_self _ x seen l 0%Z (same_tag_refl x)) as Hself.
  cbn [Z.add] in Hself. rewrite Hself. clear Hself.
  specialize (IH (seen ++ [x])).
  rewrite <- app_assoc, length_app in IH. cbn [List.length app] in IH.
  replace (Z.of_nat (List.length seen) + 1)%Z
    with (Z.of_nat (List.length seen + 1)) by lia.
  rewrite IH. now destruct (existsb (same_tag x) seen).
Qed.

Lemma distinct_first_occurrences (arr : list GeneratedHashtag) :
  distinct arr = first_occurrences [] arr.
Proof. exact (filter_from_first_occurrences [] arr). Qed.

Lemma first_occurrences_sound (seen l : list GeneratedHashtag)
  (h : GeneratedHashtag) :
  In h (first_occurrences seen l) ->
  existsb (same_tag h) seen = false /\ find (same_tag h) l = Some h.
Proof.
  revert seen. induction l as [|x l IH]; intros seen Hin; [easy|].
  cbn [first_occurrences] in Hin.
  assert (Hrest : In h (first_occurrences (seen ++ [x]) l) ->
          existsb (same_tag h) seen = false
          /\ find (same_tag h) (x :: l) = Some h).
  { intros H. apply IH in H. destruct H as [Hseen Hfind].
    rewrite existsb_app in Hseen. apply orb_false_iff in Hseen.
    destruct Hseen as [Hseen Hx]. cbn in Hx. rewrite orb_false_r in Hx.
    split; [exact Hseen|]. cbn [find]. now rewrite Hx. }
  destruct (existsb (same_tag x) seen) eqn:E; [now apply Hrest|].
  destruct Hin as [<-|Hin]; [|now apply Hrest].
  split; [exact E|]. cbn [find]. now rewrite same_tag_refl.
Qed.

Lemma first_occurrences_NoDup (seen l : list GeneratedHashtag) :
  NoDup (map tag_key (first_occurrences seen l)).
Proof.
  revert seen. induction l as [|x l IH]; intros seen; [constructor|].
  cbn [first_occurrences].
  destruct (existsb (same_tag x) seen); [apply IH|].
  cbn [map]. constructor; [|apply IH].
  intros Hin. apply in_map_iff in Hin. destruct Hin as (h & Hkey & Hin).
  apply first_occurrences_sound in Hin. destruct Hin as [Hseen _].
  rewrite existsb_app in Hseen. apply orb_false_iff in Hseen.
  destruct Hseen as [_ Hx]. cbn in Hx. rewrite orb_false_r in Hx.
  symmetry in Hkey. apply same_tag_key in Hkey. congruence.
Qed.

Lemma first_occurrences_complete (seen l : list GeneratedHashtag)
  (x : GeneratedHashtag) :
  In x l ->
  existsb (same_tag x) seen = true
  \/ exists h, In h (first_occurrences seen l) /\ tag_key h = tag_key x.
Proof.
  revert seen. induction l as [|y l IH]; intros seen Hin; [easy|].
  cbn [first_occurrences].
  assert (Hrest : existsb (same_tag x) (seen ++ [y]) = true ->
          existsb (same_tag x) seen = true
          \/ exists h, In h (if existsb (same_tag y) seen
                             then first_occurrences (seen ++ [y]) l
                             else y :: first_occurrences (seen ++ [y]) l)
                       /\ tag_key h = tag_key x).
  { rewrite existsb_app. intros H. apply orb_true_iff in H.
    destruct H as [H|H]; [now left|].
    cbn in H. rewrite orb_false_r in H. apply same_tag_key in H.
    destruct (existsb (same_tag y) seen) eqn:E.
    - left. apply existsb_exists in E. destruct E as (z & Hz & Hzy).
      apply existsb_exists. exists z. split; [exact Hz|].
      apply same_tag_key. apply same_tag_key in Hzy. congruence.
    - right. exists y. split; [now left | exact H]. }
  destruct Hin as [->|Hin].
  - apply Hrest. rewrite existsb_app. cbn. now rewrite same_tag_refl, orb_true_r.
  - destruct (IH (seen ++ [y]) Hin) as [H|(h & Hh & Hkey)].
    + now apply Hrest.
    + right. exists h. split; [|exact Hkey].
      destruct (existsb (same_tag y) seen); [exact Hh | now right].
Qed.

Lemma distinct_In (arr : list GeneratedHashtag) (h : GeneratedHashtag) :
  In h (distinct arr) -> In h arr.
Proof.
  rewrite distinct_first_occurrences. intros H.
  apply first_occurrences_sound in H. destruct H as [_ H].
  now apply find_some in H.
Qed.

Lemma distinct_Forall (P : GeneratedHashtag -> Prop)
  (arr : list GeneratedHashtag) :
  Forall P arr -> Forall P (distinct arr).
Proof.
  rewrite !Forall_forall. intros H h Hh. now apply H, distinct_In.
Qed.

Lemma find_app {A : Type} (p : A -> bool) (l1 l2 : list A) :
  find p (l1 ++ l2)
  = match find p l1 with Some x => Some x | None => find p l2 end.
Proof.
  induction l1 as [|x l1 IH]; [reflexivity|]. cbn [app find].
  now destruct (p x).
Qed.

Lemma find_existsb {A : Type} (p : A -> bool) (l : list A) :
  existsb p l = true -> exists x, find p l = Some x.
Proof.
  induction l as [|y l IH]; cbn; [easy|].
  destruct (p y); [now exists y | exact IH].
Qed.

(** ** The comparator of the hashtags *)

Lemma by_confidence_key (x y : GeneratedHashtag) :
  finite_confidence x -> finite_confidence y ->
  (is_positive (by_confidence x y) = true
   <-> (rational (confidence x) < rational (confidence y))%Q).
Proof.
  unfold finite_confidence, by_confidence.
  destruct (confidence x) as [p| | |], (confidence y) as [q| | |];
    cbn; try easy.
  intros _ _. unfold Qpos. rewrite negb_true_iff. split.
  - intros H. apply Qnot_le_lt. intros Hle.
    assert (Qle_bool (q - p) 0 = true) by (apply Qle_bool_iff; lra).
    congruence.
  - intros H. destruct (Qle_bool (q - p) 0) eqn:E; [|reflexivity].
    apply Qle_bool_iff in E. lra.
Qed.

Lemma sort_by_confidence_sorted (l : list GeneratedHashtag) :
  Forall finite_confidence l ->
  StronglySorted confidence_ge (sort by_confidence l).
Proof.
  apply (sort_sorted by_confidence (fun h => rational (confidence h))
           finite_confidence by_confidence_key).
Qed.

Lemma sort_by_confidence_stable (q : Q) (l : list GeneratedHashtag) :
  Forall finite_confidence l ->
  with_confidence q (sort by_confidence l) = with_confidence q l.
Proof.
  apply (sort_same_key by_confidence (fun h => rational (confidence h))
           finite_confidence by_confidence_key).
Qed.

(* ================================================================== *)
(** * The merge *)

(** C1. The result of the merge holds no two entries whose tags are equal
    up to case, and each entry is the first one with its tag in the first
    array followed by the second; so when the first array holds that tag,
    the surviving entry is the first array's. *)
Theorem merge_keeps_first_of_each_tag
  (a b : list GeneratedHashtag) (limit : nat) :
  NoDup (map tag_key (merge a b limit))
  /\ forall h, In h (merge a b limit) ->
       find (same_tag h) (a ++ b) = Some h
       /\ (existsb (same_tag h) a = true ->
           find (same_tag h) a = Some h /\ In h a).
Proof.
  unfold merge, slice0. split.
  - rewrite <- firstn_map. apply firstn_NoDup.
    eapply Permutation_NoDup.
    + apply Permutation_map. symmetry. apply sort_perm.
    + rewrite distinct_first_occurrences. apply first_occurrences_NoDup.
  - intros h Hin. apply firstn_In, sort_In in Hin.
    rewrite distinct_first_occurrences in Hin.
    apply first_occurrences_sound in Hin. destruct Hin as [_ Hfind].
    split; [exact Hfind|]. intros Ha.
    apply find_existsb in Ha. destruct Ha as [x Hx].
    rewrite find_app, Hx in Hfind. injection Hfind as ->.
    split; [exact Hx|]. now apply find_some in Hx.
Qed.

(** C2. On hashtags with finite confidences the result of the merge is
    sorted by descending confidence, and the sort is stable: the entries of
    any one confidence come in the order they have among the distinct
    entries of the first array followed by the second. *)
Theorem merge_sorted_descending_stable
  (a b : list GeneratedHashtag) (limit : nat) :
  Forall finite_confidence (a ++ b) ->
  StronglySorted confidence_ge (merge a b limit)
  /\ (exists sorted,
        merge a b limit = firstn limit sorted
        /\ Permutation sorted (distinct (a ++ b))
        /\ StronglySorted confidence_ge sorted
        /\ forall q, with_confidence q sorted
                     = with_confidence q (distinct (a ++ b)))
  /\ forall q, exists rest,
       with_confidence q (distinct (a ++ b))
       = with_confidence q (merge a b limit) ++ rest.
Proof.
  intros Hfin. apply distinct_Forall in Hfin.
  pose proof (sort_by_confidence_sorted _ Hfin) as Hsorted.
  unfold merge, slice0. repeat split.
  - now apply firstn_sorted.
  - exists (sort by_confidence (distinct (a ++ b))). repeat split.
    + apply sort_perm.
    + exact Hsorted.
    + intros q. now apply sort_by_confidence_stable.
  - intros q.
    exists (with_confidence q
              (skipn limit (sort by_confidence (distinct (a ++ b))))).
    rewrite <- (sort_by_confidence_stable q _ Hfin).
    apply firstn_filter_prefix.
Qed.

(** C3. The merge returns the first [n] entries of the sorted distinct
    list, hence at most [n] entries, and the pipeline, which merges with
    the bound 15, returns at most 15 hashtags whatever the text. *)
Theorem merge_at_most_limit :
  (forall (a b : list GeneratedHashtag) (n : nat),
      merge a b n = firstn n (sort by_confidence (distinct (a ++ b)))
      /\ List.length (merge a b n) <= n)
  /\ (forall text : string,
        allHashtags text
        = merge (extractKeywords text) (generateCategoryHashtags text) 15
        /\ List.length (allHashtags text) <= 15)
  /\ (forall (modelLoaded : bool) (st : State),
        hashtags (fst (generateHashtags modelLoaded st))
        = if is_blank (inputText st) then hashtags st
          else allHashtags (inputText st)).
Proof.
  split; [|split].
  - intros a b n. split; [reflexivity | apply firstn_le_length].
  - intros text. split; [reflexivity | apply firstn_le_length].
  - intros modelLoaded st. unfold generateHashtags.
    now destruct (is_blank (inputText st)), modelLoaded.
Qed.

Lemma merge_keeps_first_of_each_tag_witness :
  In upper_ai (merge sample_keywords sample_categories 15)
  /\ existsb (same_tag upper_ai) sample_keywords = true
  /\ find (same_tag upper_ai) (sample_keywords ++ sample_categories)
     = Some upper_ai
  /\ find (same_tag upper_ai) sample_keywords = Some upper_ai
  /\ In upper_ai sample_keywords.
Proof.
  assert (Hin : In upper_ai (merge sample_keywords sample_categories 15))
    by (vm_compute; right; left; reflexivity).
  assert (Hex : existsb (same_tag upper_ai) sample_keywords = true)
    by reflexivity.
  destruct (proj2 (merge_keeps_first_of_each_tag
                     sample_keywords sample_categories 15) upper_ai Hin)
    as [Hfind Hfirst].
  destruct (Hfirst Hex) as [Hfa Hina].
  repeat split; assumption.
Defined.

Lemma merge_sorted_descending_stable_witness :
  Forall finite_confidence (sample_keywords ++ sample_categories)
  /\ StronglySorted confidence_ge (merge sample_keywords sample_categories 15).
Proof.
  assert (Hfin : Forall finite_confidence
                   (sample_keywords ++ sample_categories))
    by (repeat constructor).
  split; [exact Hfin|].
  exact (proj1 (merge_sorted_descending_stable
                  sample_keywords sample_categories 15 Hfin)).
Defined.

(* ================================================================== *)
(** * The keyword scorer *)

(** ** Tokens *)

Lemma strip_agrees (c : ascii) :
  let kept := if is_word c || is_space c then c else space in
  let stripped :=
    if is_letter c || is_digit c || is_underscore c then c else space in
  is_space kept = is_space stripped
  /\ (is_space kept = false -> kept = stripped).
Proof.
  destruct c as [[] [] [] [] [] [] [] []]; vm_compute; split;
    solve [reflexivity | discriminate].
Qed.

Lemma split_from_agree (f g : ascii -> ascii) :
  (forall c, is_space (f c) = is_space (g c)
             /\ (is_space (f c) = false -> f c = g c)) ->
  forall (s : string) (in_run : bool),
    split_from in_run (map_chars f s) = split_from in_run (map_chars g s).
Proof.
  intros H s. induction s as [|c s IH]; intros in_run; [reflexivity|].
  cbn [map_chars split_from]. destruct (H c) as [Hspace Hsame].
  rewrite <- Hspace. destruct (is_space (f c)).
  - now rewrite !IH.
  - now rewrite <- (Hsame eq_refl), IH.
Qed.

Lemma meaningful_not_discarded (token : string) :
  meaningful token = negb (discarded token).
Proof.
  unfold meaningful, discarded, array_includes.
  now rewrite negb_orb, Nat.ltb_antisym.
Qed.

Lemma words_spec_tokens (text : string) : words text = spec_tokens text.
Proof.
  unfold words, spec_tokens, split_whitespace, replace_non_word_space,
    strip_non_alphanumeric.
  rewrite (split_from_agree _ _ strip_agrees).
  apply filter_ext. intros token. apply meaningful_not_discarded.
Qed.

Lemma words_meaningful (text w : string) :
  In w (words text) ->
  3 < String.length w /\ ~ In w commonWords.
Proof.
  unfold words. intros H. apply filter_In in H. destruct H as [_ H].
  unfold meaningful, array_includes in H. apply andb_true_iff in H.
  destruct H as [Hlen Hstop]. split.
  - now apply Nat.ltb_lt.
  - intros Hin. apply negb_true_iff in Hstop.
    assert (existsb (String.eqb w) commonWords = true); [|congruence].
    apply existsb_exists. exists w. split; [exact Hin|apply String.eqb_refl].
Qed.

(** ** The keys of [wordCount] *)

Lemma define_In (o : object) (k : string) (v : value) (e : string * value) :
  In e (define o k v) -> e = (k, v) \/ In e o.
Proof.
  induction o as [|[k' v'] o IH]; cbn.
  - intros [<-|[]]. now left.
  - destruct (String.eqb_spec k k') as [->|Hne]; cbn.
    + intros [<-|H]; [now left | now right; right].
    + intros [<-|H]; [now right; left|].
      destruct (IH H) as [->|H']; [now left | now right; right].
Qed.

Lemma increment_In (o : object) (w : string) (e : string * value) :
  In e (increment o w) -> fst e = w \/ In e o.
Proof.
  unfold increment. intros H.
  assert (Hdef : forall v, In e (define o w v) -> fst e = w \/ In e o).
  { intros v Hv. apply define_In in Hv. destruct Hv as [->|Hv]; auto. }
  destruct (own o w) as [[n|f j]|]; eauto.
  destruct (String.eqb w proto_key); [now right|].
  destruct (inherited_function prototype_functions w); eauto.
Qed.

Lemma fold_increment_In (ws : list string) (o : object)
  (e : string * value) :
  In e (fold_left increment ws o) -> In (fst e) ws \/ In e o.
Proof.
  revert o. induction ws as [|w ws IH]; intros o; cbn; [now right|].
  intros H. apply IH in H. destruct H as [H|H]; [now left; right|].
  apply increment_In in H. destruct H as [H|H]; [now left; left | now right].
Qed.

Lemma insert_index_In (n : N) (e : string * value)
  (l : list (N * (string * value))) (x : N * (string * value)) :
  In x (insert_index n e l) -> x = (n, e) \/ In x l.
Proof.
  induction l as [|[m e'] l IH]; cbn.
  - intros [<-|[]]. now left.
  - destruct (n <? m)%N; cbn.
    + intros [<-|H]; [now left | now right].
    + intros [<-|H]; [now right; left|].
      destruct (IH H) as [->|H']; [now left | now right; right].
Qed.

Lemma index_entries_In (o : object) (x : N * (string * value)) :
  In x (index_entries o) -> In (snd x) o.
Proof.
  induction o as [|[k v] o IH]; cbn; [easy|].
  destruct (array_index k).
  - intros H. apply insert_index_In in H.
    destruct H as [->|H]; [now left | right; now apply IH].
  - intros H. right. now apply IH.
Qed.

Lemma entries_In (o : object) (e : string * value) :
  In e (entries o) -> In e o.
Proof.
  unfold entries, named_entries. intros H. apply in_app_or in H.
  destruct H as [H|H].
  - apply in_map_iff in H. destruct H as (x & <- & Hx).
    now apply index_entries_In.
  - now apply filter_In in H.
Qed.

Lemma wordCount_keys (text : string) (e : string * value) :
  In e (entries (wordCount text)) -> In (fst e) (words text).
Proof.
  intros H. apply entries_In in H. unfold wordCount in H.
  apply fold_increment_In in H. now destruct H.
Qed.

Lemma extractKeywords_In (text : string) (h : GeneratedHashtag) :
  In h (extractKeywords text) ->
  exists e, In e (entries (wordCount text))
            /\ h = keyword_hashtag (List.length (words text)) e.
Proof.
  unfold extractKeywords, slice0. intros H.
  apply in_map_iff in H. destruct H as (e & <- & He).
  apply firstn_In, sort_In in He. now exists e.
Qed.

(** C5. The tokens the keyword scorer counts are those of the text in
    lower case, with every character other than an (unaccented) letter, a
    digit or an underscore turned into a space, cut at runs of white space,
    without the tokens of length at most 3 and without the stop words; the
    keys of the count table and the tags of the result come from these
    tokens only. *)
Theorem extractKeywords_tokenization (text : string) :
  words text = spec_tokens text
  /\ (forall w, In w (words text) ->
        In w (split_whitespace (strip_non_alphanumeric (toLowerCase text)))
        /\ 3 < String.length w /\ ~ In w commonWords)
  /\ (forall k v, In (k, v) (entries (wordCount text)) -> In k (words text))
  /\ (forall h, In h (extractKeywords text) ->
        exists w, In w (words text) /\ tag h = ("#" ++ w)%string).
Proof.
  split; [apply words_spec_tokens|]. split; [|split].
  - intros w Hw. split; [|now apply (words_meaningful text)].
    rewrite words_spec_tokens in Hw. unfold spec_tokens in Hw.
    now apply filter_In in Hw.
  - intros k v H. now apply wordCount_keys in H.
  - intros h H. apply extractKeywords_In in H. destruct H as (e & He & ->).
    exists (fst e). split; [now apply wordCount_keys | reflexivity].
Qed.

Lemma extractKeywords_tokenization_witness :
  In "hello" (words "Hello, wide world")
  /\ In "hello"
       (split_whitespace
          (strip_non_alphanumeric (toLowerCase "Hello, wide world")))
  /\ 3 < String.length "hello" /\ ~ In "hello" commonWords.
Proof.
  assert (H : In "hello" (words "Hello, wide world"))
    by (vm_compute; left; reflexivity).
  split; [exact H|].
  exact (proj1 (proj2 (extractKeywords_tokenization "Hello, wide world"))
           "hello" H).
Defined.

(** ** No token, no division *)

Lemma of_nat_not_zero (t : nat) :
  0 < t -> Qeq_bool (inject_Z (Z.of_nat t)) 0 = false.
Proof.
  intros Ht. destruct (Qeq_bool (inject_Z (Z.of_nat t)) 0) eqn:E;
    [|reflexivity].
  apply Qeq_bool_iff in E. unfold Qeq in E. cbn in E. lia.
Qed.

Lemma quotient_not_infinite (v : value) (t : nat) :
  0 < t ->
  num_div (to_number v) (of_nat t) <> PInf
  /\ num_div (to_number v) (of_nat t) <> NInf.
Proof.
  intros Ht. destruct v as [n|f j]; cbn.
  - rewrite (of_nat_not_zero t Ht). split; discriminate.
  - split; discriminate.
Qed.

(** C6. When no token survives the filter the keyword scorer returns the
    empty array; an entry of its result is always computed with a non-zero
    divisor, so that its quotient is never an infinity.  The empty text and
    a text of white space give the empty array, and so does the whole
    pipeline on them. *)
Theorem extractKeywords_without_tokens (text : string) :
  (words text = [] -> extractKeywords text = [])
  /\ (forall h, In h (extractKeywords text) ->
        0 < List.length (words text)
        /\ exists e,
             h = keyword_hashtag (List.length (words text)) e
             /\ num_div (to_number (snd e))
                  (of_nat (List.length (words text))) <> PInf
             /\ num_div (to_number (snd e))
                  (of_nat (List.length (words text))) <> NInf)
  /\ extractKeywords "" = []
  /\ extractKeywords blank_text = []
  /\ allHashtags "" = []
  /\ allHashtags blank_text = [].
Proof.
  assert (Hempty : words text = [] -> extractKeywords text = []).
  { intros H. unfold extractKeywords, wordCount. now rewrite H. }
  split; [exact Hempty|]. split; [|now vm_compute].
  intros h Hin.
  assert (Hpos : 0 < List.length (words text)).
  { destruct (words text) eqn:E; cbn; [|lia].
    rewrite (Hempty eq_refl) in Hin. destruct Hin. }
  split; [exact Hpos|].
  apply extractKeywords_In in Hin. destruct Hin as (e & _ & ->).
  exists e. split; [reflexivity|]. now apply quotient_not_infinite.
Qed.

Lemma extractKeywords_without_tokens_witness :
  words "the cat sat with this" = []
  /\ extractKeywords "the cat sat with this" = [].
Proof.
  assert (H : words "the cat sat with this" = []) by reflexivity.
  split; [exact H|].
  exact (proj1 (extractKeywords_without_tokens "the cat sat with this") H).
Defined.

(** ** The token [constructor] *)

(** C4.  The keyword scorer returns at most 12 entries, whatever the text.
    At the text [constructor] the token survives the filter, but
    [wordCount["constructor"]] reads the function inherited from
    [Object.prototype]; adding 1 to it gives a text, its quotient by the
    number of tokens is [NaN], and [Math.min] keeps [NaN].  The confidence
    of the one hashtag is then no number of the interval from 0 to 0.9, and
    not the smaller of [1 / 1 * 2] and [0.9]. *)
Theorem extractKeywords_constructor :
  (forall text, List.length (extractKeywords text) <= 12)
  /\ words "constructor" = ["constructor"]
  /\ entries (wordCount "constructor") = [("constructor", VText "Object" 1)]
  /\ extractKeywords "constructor"
     = [{| tag := "#constructor"; confidence := NaN |}]
  /\ extractKeywords "Constructor pattern"
     = [ {| tag := "#constructor"; confidence := NaN |};
         {| tag := "#pattern"; confidence := Fin (9 # 10) |} ]
  /\ ~ (forall text h, In h (extractKeywords text) ->
          exists q, confidence h = Fin q /\ (0 <= q <= 9 # 10)%Q).
Proof.
  split.
  { intros text. unfold extractKeywords, slice0.
    rewrite length_map. apply firstn_le_length. }
  split; [reflexivity|]. split; [reflexivity|]. split; [reflexivity|].
  split; [now vm_compute|].
  intros H.
  destruct (H "constructor" {| tag := "#constructor"; confidence := NaN |})
    as (q & Hq & _).
  - left. reflexivity.
  - discriminate.
Qed.

(* ================================================================== *)
(** * The category scorer *)

(** ** What the loop pushes *)

Lemma fold_push_map {A B : Type} (f : B -> A) (l : list B) (arr : list A) :
  fold_left (fun arr x => push arr (f x)) l arr = arr ++ map f l.
Proof.
  revert arr. induction l as [|x l IH]; intros arr; cbn.
  - now rewrite app_nil_r.
  - rewrite IH. unfold push. now rewrite <- app_assoc.
Qed.

Lemma visit_category_block (lowerText : string)
  (arr : list GeneratedHashtag) (entry : string * list string) :
  visit_category lowerText arr entry = arr ++ category_block lowerText entry.
Proof.
  destruct entry as [category keywords].
  unfold visit_category, category_block, slice0. cbn [fst snd].
  destruct (matches lowerText keywords) as [|k ks]; cbn [List.length Nat.ltb].
  - cbn. now rewrite app_nil_r.
  - change (0 <? S (List.length ks))%nat with true. cbv iota.
    rewrite fold_push_map. unfold push. now rewrite <- app_assoc.
Qed.

Lemma fold_visit_category (lowerText : string)
  (table : list (string * list string)) (arr : list GeneratedHashtag) :
  fold_left (visit_category lowerText) table arr
  = arr ++ flat_map (category_block lowerText) table.
Proof.
  revert arr. induction table as [|entry table IH]; intros arr; cbn.
  - now rewrite app_nil_r.
  - now rewrite IH, visit_category_block, <- app_assoc.
Qed.

Lemma matchedCategories_flat_map (text : string) :
  matchedCategories text
  = flat_map (category_block (toLowerCase text)) categories.
Proof. apply (fold_visit_category _ categories []). Qed.

Lemma matches_length (lowerText : string) (keywords : list string) :
  List.length (matches lowerText keywords) <= List.length keywords.
Proof. apply filter_length_le. Qed.

Lemma num_div_of_nat (m k : nat) :
  0 < k ->
  num_div (of_nat m) (of_nat k)
  = Fin (inject_Z (Z.of_nat m) / inject_Z (Z.of_nat k)).
Proof. intros Hk. cbn. now rewrite (of_nat_not_zero k Hk). Qed.

(** C7. For a category of the table with at least one keyword inside the
    text in lower case, the loop pushes the tag of the category, with the
    number of matched keywords over the number of keywords as confidence,
    followed by the tags of the first two matched keywords, in the order of
    the keyword list, each with confidence 0.7.  The array holds nothing
    besides these blocks. *)
Theorem matchedCategories_emits_category_and_two_keywords (text : string) :
  matchedCategories text
  = flat_map (category_block (toLowerCase text)) categories
  /\ forall category keywords,
       In (category, keywords) categories ->
       matches (toLowerCase text) keywords <> [] ->
       exists before after,
         matchedCategories text
         = before
           ++ {| tag := "#" ++ category;
                 confidence :=
                   Fin (inject_Z
                          (Z.of_nat
                             (List.length
                                (matches (toLowerCase text) keywords)))
                        / inject_Z (Z.of_nat (List.length keywords))) |}
              :: map (fun keyword =>
                        {| tag := "#" ++ keyword;
                           confidence := Fin (7 # 10) |})
                   (firstn 2 (matches (toLowerCase text) keywords))
           ++ after.
Proof.
  split; [apply matchedCategories_flat_map|].
  intros category keywords Hin Hne.
  apply in_split in Hin. destruct Hin as (t1 & t2 & Htable).
  exists (flat_map (category_block (toLowerCase text)) t1),
         (flat_map (category_block (toLowerCase text)) t2).
  rewrite matchedCategories_flat_map, Htable, flat_map_app.
  f_equal. cbn [flat_map]. unfold category_block at 1. cbn [fst snd].
  pose proof (matches_length (toLowerCase text) keywords) as Hlen.
  destruct (matches (toLowerCase text) keywords) as [|k ks] eqn:E;
    [contradiction|].
  cbn [app]. f_equal. unfold category_hashtag.
  rewrite num_div_of_nat; [reflexivity|]. cbn in Hlen. lia.
Qed.

Lemma matchedCategories_emits_category_and_two_keywords_witness :
  In ("fitness", ["fitness"; "workout"; "exercise"; "health"; "gym";
                  "training"; "muscle"; "strength"]) categories
  /\ matches (toLowerCase "Gym workout for strength")
       ["fitness"; "workout"; "exercise"; "health"; "gym";
        "training"; "muscle"; "strength"] <> []
  /\ exists before after,
       matchedCategories "Gym workout for strength"
       = before
         ++ {| tag := "#fitness"; confidence := Fin (3 # 8) |}
            :: [ {| tag := "#workout"; confidence := Fin (7 # 10) |};
                 {| tag := "#gym"; confidence := Fin (7 # 10) |} ]
         ++ after.
Proof.
  assert (Hin : In ("fitness", ["fitness"; "workout"; "exercise"; "health";
                                "gym"; "training"; "muscle"; "strength"])
                  categories)
    by (cbn; tauto).
  assert (Hne : matches (toLowerCase "Gym workout for strength")
                  ["fitness"; "workout"; "exercise"; "health"; "gym";
                   "training"; "muscle"; "strength"] <> [])
    by (vm_compute; discriminate).
  split; [exact Hin|]. split; [exact Hne|].
  destruct (proj2 (matchedCategories_emits_category_and_two_keywords
                     "Gym workout for strength") _ _ Hin Hne)
    as (before & after & H).
  exists before, after. exact H.
Defined.

(** ** Confidences of the category scorer *)

Lemma ratio_in_unit (m k : nat) :
  m <= k -> 0 < k ->
  (0 <= inject_Z (Z.of_nat m) / inject_Z (Z.of_nat k) <= 1)%Q.
Proof.
  intros Hmk Hk.
  assert (Hpos : (0 < inject_Z (Z.of_nat k))%Q).
  { change 0%Q with (inject_Z 0). rewrite <- Zlt_Qlt. lia. }
  split.
  - apply Qle_shift_div_l; [exact Hpos|]. rewrite Qmult_0_l.
    change 0%Q with (inject_Z 0). rewrite <- Zle_Qle. lia.
  - apply Qle_shift_div_r; [exact Hpos|]. rewrite Qmult_1_l.
    rewrite <- Zle_Qle. lia.
Qed.

Lemma category_block_unit (lowerText : string)
  (entry : string * list string) :
  Forall unit_confidence (category_block lowerText entry).
Proof.
  unfold category_block.
  pose proof (matches_length lowerText (snd entry)) as Hlen.
  destruct (matches lowerText (snd entry)) as [|k ks]; constructor.
  - unfold unit_confidence, category_hashtag. cbn [confidence].
    cbn [List.length] in Hlen.
    rewrite num_div_of_nat by lia. eexists. split; [reflexivity|].
    apply ratio_in_unit; cbn [List.length]; lia.
  - apply Forall_forall. intros h Hh. apply in_map_iff in Hh.
    destruct Hh as (keyword & <- & _).
    exists (7 # 10)%Q. split; [reflexivity|]. split; discriminate.
Qed.

Lemma matchedCategories_unit (text : string) :
  Forall unit_confidence (matchedCategories text).
Proof.
  rewrite matchedCategories_flat_map.
  induction categories as [|entry table IH]; cbn [flat_map].
  - constructor.
  - apply Forall_app. split; [apply category_block_unit | exact IH].
Qed.

Lemma unit_confidence_finite (h : GeneratedHashtag) :
  unit_confidence h -> finite_confidence h.
Proof.
  intros (q & Hq & _). unfold finite_confidence. now rewrite Hq.
Qed.

(** C8. The category scorer returns the first 8 entries of the pushed
    array sorted by descending confidence: at most 8 entries, each with a
    confidence between 0 and 1. *)
Theorem generateCategoryHashtags_top_eight (text : string) :
  generateCategoryHashtags text
  = firstn 8 (sort by_confidence (matchedCategories text))
  /\ Permutation (sort by_confidence (matchedCategories text))
       (matchedCategories text)
  /\ StronglySorted confidence_ge
       (sort by_confidence (matchedCategories text))
  /\ StronglySorted confidence_ge (generateCategoryHashtags text)
  /\ List.length (generateCategoryHashtags text) <= 8
  /\ Forall unit_confidence (generateCategoryHashtags text).
Proof.
  pose proof (matchedCategories_unit text) as Hunit.
  assert (Hsorted : StronglySorted confidence_ge
                      (sort by_confidence (matchedCategories text))).
  { apply sort_by_confidence_sorted.
    eapply Forall_impl; [|exact Hunit]. apply unit_confidence_finite. }
  unfold generateCategoryHashtags, slice0.
  split; [reflexivity|]. split; [apply sort_perm|].
  split; [exact Hsorted|]. split; [now apply firstn_sorted|].
  split; [apply firstn_le_length|].
  apply Forall_forall. intros h Hh. apply firstn_In, sort_In in Hh.
  rewrite Forall_forall in Hunit. now apply Hunit.
Qed.

(** ** Matching by containment *)

Lemma prefix_lower (k s : string) :
  prefix k s = true -> prefix (toLowerCase k) (toLowerCase s) = true.
Proof.
  revert s. induction k as [|a k IH]; intros s;
    [intros _; now destruct s|].
  destruct s as [|b s]; cbn; [discriminate|].
  destruct (ascii_dec a b) as [->|Hne]; [|discriminate].
  intros H. destruct (ascii_dec (lower_char b) (lower_char b)); [|congruence].
  now apply IH.
Qed.

Lemma includes_lower (s k : string) :
  includes s k = true ->
  includes (toLowerCase s) (toLowerCase k) = true.
Proof.
  induction s as [|c s IH]; cbn [includes toLowerCase map_chars];
    intros H; apply orb_true_iff in H; apply orb_true_iff.
  - destruct H as [H|H]; [|discriminate]. left. now apply prefix_lower in H.
  - destruct H as [H|H]; [left | right; now apply IH].
    now apply prefix_lower in H.
Qed.

Lemma keywords_lower_case_true : keywords_lower_case = true.
Proof. reflexivity. Qed.

Lemma keyword_lower (category keyword : string) (keywords : list string) :
  In (category, keywords) categories -> In keyword keywords ->
  toLowerCase keyword = keyword.
Proof.
  intros Hc Hk. pose proof keywords_lower_case_true as H.
  unfold keywords_lower_case in H. rewrite forallb_forall in H.
  specialize (H _ Hc). cbn [snd] in H. rewrite forallb_forall in H.
  now apply String.eqb_eq, H.
Qed.

(** C9. A keyword counts as matched as soon as it occurs somewhere in the
    text (in the text as typed, hence in its lower case), inside a longer
    word or not, and the tag of its category is pushed; [aiming] matches
    the keyword [ai] of [technology]. *)
Theorem keyword_inside_a_word_matches :
  (forall text category keywords keyword,
      In (category, keywords) categories ->
      In keyword keywords ->
      includes text keyword = true
      \/ includes (toLowerCase text) keyword = true ->
      In keyword (matches (toLowerCase text) keywords)
      /\ exists h, In h (matchedCategories text)
                   /\ tag h = ("#" ++ category)%string
                   /\ confidence h
                      = num_div
                          (of_nat (List.length
                                     (matches (toLowerCase text) keywords)))
                          (of_nat (List.length keywords)))
  /\ includes "aiming" "ai" = true
  /\ matches (toLowerCase "aiming")
       ["tech"; "ai"; "software"; "digital"; "innovation"; "coding";
        "development"; "startup"; "algorithm"] = ["ai"]
  /\ generateCategoryHashtags "aiming"
     = [ {| tag := "#ai"; confidence := Fin (7 # 10) |};
         {| tag := "#technology"; confidence := Fin (1 # 9) |} ].
Proof.
  split; [|now vm_compute].
  intros text category keywords keyword Hc Hk Hinc.
  assert (Hlow : includes (toLowerCase text) keyword = true).
  { destruct Hinc as [H|H]; [|exact H].
    apply includes_lower in H. now rewrite (keyword_lower _ _ _ Hc Hk) in H. }
  assert (Hm : In keyword (matches (toLowerCase text) keywords)).
  { unfold matches. apply filter_In. now split. }
  split; [exact Hm|].
  exists (category_hashtag category
            (List.length (matches (toLowerCase text) keywords))
            (List.length keywords)).
  split; [|now split].
  rewrite matchedCategories_flat_map. apply in_flat_map.
  exists (category, keywords). split; [exact Hc|].
  unfold category_block. cbn [fst snd].
  destruct (matches (toLowerCase text) keywords); [destruct Hm | now left].
Qed.

Lemma keyword_inside_a_word_matches_witness :
  In ("technology", ["tech"; "ai"; "software"; "digital"; "innovation";
                     "coding"; "development"; "startup"; "algorithm"])
    categories
  /\ includes "I was aiming high" "ai" = true
  /\ In "ai" (matches (toLowerCase "I was aiming high")
                ["tech"; "ai"; "software"; "digital"; "innovation";
                 "coding"; "development"; "startup"; "algorithm"])
  /\ exists h, In h (matchedCategories "I was aiming high")
               /\ tag h = "#technology".
Proof.
  assert (Hc : In ("technology", ["tech"; "ai"; "software"; "digital";
                                  "innovation"; "coding"; "development";
                                  "startup"; "algorithm"]) categories)
    by (cbn; tauto).
  assert (Hinc : includes "I was aiming high" "ai" = true) by reflexivity.
  destruct (proj1 keyword_inside_a_word_matches
              "I was aiming high" _ _ "ai" Hc
              (or_intror (or_introl eq_refl)) (or_introl Hinc))
    as [Hm (h & Hh & Htag & _)].
  split; [exact Hc|]. split; [exact Hinc|]. split; [exact Hm|].
  exists h. split; [exact Hh | exact Htag].
Defined.

(** ** Keywords shared by two categories *)

(** C10. The category scorer can return the same tag twice.  A keyword
    listed under two categories ([training], [development],
    [innovation]) is pushed once for each, with confidence 0.7, and nothing
    between the loop and the [return] removes a repeated tag; the merge
    does. *)
Theorem generateCategoryHashtags_repeats_shared_keywords :
  generateCategoryHashtags "training"
  = [ {| tag := "#ai"; confidence := Fin (7 # 10) |};
      {| tag := "#training"; confidence := Fin (7 # 10) |};
      {| tag := "#training"; confidence := Fin (7 # 10) |};
      {| tag := "#fitness"; confidence := Fin (1 # 8) |};
      {| tag := "#education"; confidence := Fin (1 # 8) |};
      {| tag := "#technology"; confidence := Fin (1 # 9) |} ]
  /\ generateCategoryHashtags "development"
     = [ {| tag := "#development"; confidence := Fin (7 # 10) |};
         {| tag := "#development"; confidence := Fin (7 # 10) |};
         {| tag := "#education"; confidence := Fin (1 # 8) |};
         {| tag := "#technology"; confidence := Fin (1 # 9) |} ]
  /\ generateCategoryHashtags "innovation"
     = [ {| tag := "#innovation"; confidence := Fin (7 # 10) |};
         {| tag := "#innovation"; confidence := Fin (7 # 10) |};
         {| tag := "#creativity"; confidence := Fin (1 # 8) |};
         {| tag := "#technology"; confidence := Fin (1 # 9) |} ]
  /\ (exists text i j h1 h2,
        i <> j
        /\ nth_error (generateCategoryHashtags text) i = Some h1
        /\ nth_error (generateCategoryHashtags text) j = Some h2
        /\ tag h1 = tag h2)
  /\ (forall text,
        generateCategoryHashtags text
        = firstn 8 (sort by_confidence
                      (flat_map (category_block (toLowerCase text))
                         categories)))
  /\ allHashtags "training"
     = [ {| tag := "#training"; confidence := Fin (9 # 10) |};
         {| tag := "#ai"; confidence := Fin (7 # 10) |};
         {| tag := "#fitness"; confidence := Fin (1 # 8) |};
         {| tag := "#education"; confidence := Fin (1 # 8) |};
         {| tag := "#technology"; confidence := Fin (1 # 9) |} ]
  /\ merge [] (generateCategoryHashtags "training") 15
     = [ {| tag := "#ai"; confidence := Fin (7 # 10) |};
         {| tag := "#training"; confidence := Fin (7 # 10) |};
         {| tag := "#fitness"; confidence := Fin (1 # 8) |};
         {| tag := "#education"; confidence := Fin (1 # 8) |};
         {| tag := "#technology"; confidence := Fin (1 # 9) |} ].
Proof.
  split; [now vm_compute|]. split; [now vm_compute|].
  split; [now vm_compute|]. split; [|split; [|now vm_compute]].
  - exists "training", 1, 2,
      {| tag := "#training"; confidence := Fin (7 # 10) |},
      {| tag := "#training"; confidence := Fin (7 # 10) |}.
    split; [discriminate|]. now vm_compute.
  - intros text. unfold generateCategoryHashtags, slice0.
    now rewrite matchedCategories_flat_map.
Qed.

(* ================================================================== *)
(** * The keyword scorer away from [constructor] *)

(** ** Tokens hold no capital *)

Lemma stripped_lower_char_not_upper (c : ascii) :
  is_upper (if is_word (lower_char c) || is_space (lower_char c)
            then lower_char c else space) = false.
Proof. destruct c as [[] [] [] [] [] [] [] []]; reflexivity. Qed.

Lemma replace_lower_only (s : string) :
  lower_only (replace_non_word_space (toLowerCase s)) = true.
Proof.
  induction s as [|c s IH]; [reflexivity|].
  cbn [toLowerCase replace_non_word_space map_chars lower_only].
  rewrite stripped_lower_char_not_upper. exact IH.
Qed.

Lemma split_from_lower_only (s : string) (in_run : bool) :
  lower_only s = true ->
  Forall (fun piece => lower_only piece = true) (split_from in_run s).
Proof.
  revert in_run. induction s as [|c s IH]; intros in_run H; cbn.
  - now repeat constructor.
  - cbn in H. apply andb_true_iff in H. destruct H as [Hc Hs].
    destruct (is_space c).
    + destruct in_run; [now apply IH | constructor; [reflexivity|now apply IH]].
    + specialize (IH false Hs).
      destruct (split_from false s) as [|piece pieces].
      * repeat constructor. cbn. now rewrite Hc.
      * inversion IH as [|? ? Hp Hps]; subst. constructor; [|exact Hps].
        cbn. now rewrite Hc, Hp.
Qed.

Lemma words_lower_only (text w : string) :
  In w (words text) -> lower_only w = true.
Proof.
  unfold words, split_whitespace. intros H. apply filter_In in H.
  destruct H as [H _].
  pose proof (split_from_lower_only _ false (replace_lower_only text)) as Hall.
  rewrite Forall_forall in Hall. now apply Hall.
Qed.

Lemma inherited_function_lower_only (w : string) :
  lower_only w = true -> w <> "constructor" ->
  inherited_function prototype_functions w = None.
Proof.
  intros Hlow Hne. unfold prototype_functions. cbn [inherited_function].
  repeat match goal with
         | |- context [String.eqb w ?k] =>
             destruct (String.eqb_spec w k) as [Heq|_];
             [ first [ contradiction
                     | rewrite Heq in Hlow; vm_compute in Hlow;
                       discriminate ] | ]
         end.
  reflexivity.
Qed.

(** ** Own properties of the count table *)

Lemma own_define_same (o : object) (k : string) (v : value) :
  own (define o k v) k = Some v.
Proof.
  induction o as [|[k' v'] o IH]; cbn.
  - now rewrite String.eqb_refl.
  - destruct (String.eqb k k') eqn:E; cbn; now rewrite E.
Qed.

Lemma own_define_other (o : object) (k k' : string) (v : value) :
  k' <> k -> own (define o k v) k' = own o k'.
Proof.
  intros Hne. induction o as [|[k0 v0] o IH]; cbn.
  - apply String.eqb_neq in Hne. now rewrite Hne.
  - destruct (String.eqb_spec k k0) as [->|Hk]; cbn.
    + apply String.eqb_neq in Hne. now rewrite Hne.
    + now rewrite IH.
Qed.

Lemma own_None_keys (o : object) (k : string) :
  own o k = None -> ~ In k (map fst o).
Proof.
  induction o as [|[k' v'] o IH]; cbn; [tauto|].
  destruct (String.eqb_spec k k') as [->|Hne]; [discriminate|].
  intros H [Heq|Hin]; [congruence | now apply IH].
Qed.

Lemma define_keys (o : object) (k : string) (v : value) :
  map fst (define o k v)
  = match own o k with
    | Some _ => map fst o
    | None => map fst o ++ [k]
    end.
Proof.
  induction o as [|[k' v'] o IH]; cbn; [reflexivity|].
  destruct (String.eqb k k'); cbn; [reflexivity|].
  rewrite IH. now destruct (own o k).
Qed.

Lemma define_NoDup (o : object) (k : string) (v : value) :
  NoDup (map fst o) -> NoDup (map fst (define o k v)).
Proof.
  intros H. rewrite define_keys. destruct (own o k) eqn:E; [exact H|].
  eapply Permutation_NoDup; [apply Permutation_cons_append|].
  constructor; [now apply own_None_keys | exact H].
Qed.

Lemma In_own (o : object) (k : string) (v : value) :
  NoDup (map fst o) -> In (k, v) o -> own o k = Some v.
Proof.
  induction o as [|[k' v'] o IH]; cbn; [easy|].
  intros Hnd Hin. inversion Hnd as [|? ? Hnot Hnd']; subst.
  destruct Hin as [Heq|Hin].
  - injection Heq as -> ->. now rewrite String.eqb_refl.
  - destruct (String.eqb_spec k k') as [->|Hne]; [|now apply IH].
    exfalso. apply Hnot. apply in_map_iff. now exists (k', v).
Qed.

Lemma occurrences_snoc (k w : string) (ws : list string) :
  occurrences k (ws ++ [w])
  = occurrences k ws + (if String.eqb k w then 1 else 0).
Proof.
  unfold occurrences. rewrite count_occ_app. f_equal. cbn.
  destruct (string_dec w k) as [->|Hne].
  - now rewrite String.eqb_refl.
  - destruct (String.eqb_spec k w); [congruence | reflexivity].
Qed.

(** The count table after the loop, when no token names a function
    inherited from [Object.prototype]: its keys are distinct, and a key
    holds the number of occurrences of the token, [__proto__] apart, which
    never becomes a key. *)
Lemma fold_increment_counts (ws : list string) :
  (forall w, In w ws -> inherited_function prototype_functions w = None) ->
  NoDup (map fst (fold_left increment ws empty))
  /\ forall k,
       own (fold_left increment ws empty) k
       = if String.eqb k proto_key then None
         else match occurrences k ws with
              | 0 => None
              | S n => Some (VNum (S n))
              end.
Proof.
  induction ws as [|w ws IH] using rev_ind; intros Hreg.
  - split; [constructor|]. intros k. cbn. now destruct (String.eqb k proto_key).
  - destruct IH as [Hnd Hown].
    { intros w' Hw'. apply Hreg, in_or_app. now left. }
    assert (Hw : inherited_function prototype_functions w = None).
    { apply Hreg, in_or_app. right. now left. }
    rewrite fold_left_app. cbn [fold_left].
    set (o := fold_left increment ws empty) in *.
    unfold increment. rewrite Hw.
    pose proof (Hown w) as How.
    destruct (String.eqb_spec w proto_key) as [Hproto|Hproto].
    + rewrite How. split; [exact Hnd|]. intros k. rewrite Hown.
      destruct (String.eqb_spec k proto_key) as [_|Hk]; [reflexivity|].
      rewrite occurrences_snoc.
      destruct (String.eqb_spec k w); [congruence|]. now rewrite Nat.add_0_r.
    + rewrite How.
      assert (Hstep : forall v,
                 v = VNum (occurrences w ws + 1) ->
                 NoDup (map fst (define o w v))
                 /\ forall k,
                      own (define o w v) k
                      = if String.eqb k proto_key then None
                        else match occurrences k (ws ++ [w]) with
                             | 0 => None
                             | S n => Some (VNum (S n))
                             end).
      { intros v ->. split; [now apply define_NoDup|]. intros k.
        rewrite occurrences_snoc.
        destruct (String.eqb_spec k w) as [->|Hk].
        - rewrite own_define_same.
          destruct (String.eqb_spec w proto_key); [contradiction|].
          now rewrite Nat.add_1_r.
        - rewrite own_define_other by exact Hk. rewrite Hown.
          now rewrite Nat.add_0_r. }
      destruct (occurrences w ws) as [|n]; apply Hstep; reflexivity.
Qed.

Lemma wordCount_counts (text k : string) (v : value) :
  ~ In "constructor" (words text) ->
  In (k, v) (entries (wordCount text)) ->
  In k (words text)
  /\ v = VNum (occurrences k (words text))
  /\ 0 < occurrences k (words text).
Proof.
  intros Hreg Hin.
  assert (Hk : In k (words text)) by exact (wordCount_keys text (k, v) Hin).
  split; [exact Hk|].
  destruct (fold_increment_counts (words text)) as [Hnd Hown].
  { intros w Hw. apply inherited_function_lower_only.
    - now apply (words_lower_only text).
    - intros ->. contradiction. }
  apply entries_In in Hin. unfold wordCount in Hin.
  apply (In_own _ _ _ Hnd) in Hin. rewrite Hown in Hin.
  destruct (String.eqb k proto_key); [discriminate|].
  destruct (occurrences k (words text)); [discriminate|].
  injection Hin as <-. split; [reflexivity | lia].
Qed.

Lemma frequency_confidence_range (c total : nat) :
  0 < total ->
  (0 <= frequency_confidence c total <= 9 # 10)%Q.
Proof.
  intros Ht. unfold frequency_confidence.
  set (ratio := (inject_Z (Z.of_nat c) / inject_Z (Z.of_nat total) * 2)%Q).
  destruct (Qle_bool ratio (9 # 10)) eqn:E.
  - apply Qle_bool_iff in E. split; [|exact E].
    unfold ratio. apply Qmult_le_0_compat; [|discriminate].
    apply Qle_shift_div_l.
    + change 0%Q with (inject_Z 0). rewrite <- Zlt_Qlt. lia.
    + rewrite Qmult_0_l. change 0%Q with (inject_Z 0).
      rewrite <- Zle_Qle. lia.
  - split; [discriminate | apply Qle_refl].
Qed.

Lemma keyword_hashtag_confidence (w : string) (c total : nat) :
  0 < total ->
  confidence (keyword_hashtag total (w, VNum c))
  = Fin (frequency_confidence c total).
Proof.
  intros Ht. unfold keyword_hashtag, frequency_confidence.
  cbn [confidence snd to_number]. rewrite num_div_of_nat by exact Ht.
  cbn [num_mul num_min].
  now destruct (Qle_bool _ (9 # 10)).
Qed.

(** X1. For every text without the token [constructor], the keyword scorer
    returns at most 12 entries; each is the tag of a token, with the
    smaller of [count / total * 2] and 0.9 as confidence, a number between
    0 and 0.9. *)
Theorem extractKeywords_regular (text : string) :
  ~ In "constructor" (words text) ->
  List.length (extractKeywords text) <= 12
  /\ forall h, In h (extractKeywords text) ->
       exists w,
         In w (words text)
         /\ tag h = ("#" ++ w)%string
         /\ confidence h
            = Fin (frequency_confidence (occurrences w (words text))
                     (List.length (words text)))
         /\ (0 <= frequency_confidence (occurrences w (words text))
                    (List.length (words text)) <= 9 # 10)%Q.
Proof.
  intros Hreg. split.
  - unfold extractKeywords, slice0. rewrite length_map. apply firstn_le_length.
  - intros h Hh. apply extractKeywords_In in Hh.
    destruct Hh as ([w v] & He & ->).
    destruct (wordCount_counts text w v Hreg He) as (Hw & -> & _).
    assert (Ht : 0 < List.length (words text)).
    { destruct (words text); [destruct Hw | cbn; lia]. }
    exists w. split; [exact Hw|]. split; [reflexivity|].
    split; [now apply keyword_hashtag_confidence|].
    now apply frequency_confidence_range.
Qed.

Lemma extractKeywords_regular_witness :
  ~ In "constructor" (words "technology technology technology innovation")
  /\ List.length
       (extractKeywords "technology technology technology innovation") <= 12.
Proof.
  assert (H : ~ In "constructor"
                (words "technology technology technology innovation")).
  { vm_compute. intros [H|[H|[H|[H|[]]]]]; discriminate H. }
  split; [exact H|].
  exact (proj1 (extractKeywords_regular _ H)).
Defined.

(** X2. Without the token [constructor] every confidence that reaches the
    merge is finite, and the hashtags of the pipeline come by descending
    confidence. *)
Lemma allHashtags_sorted (text : string) :
  ~ In "constructor" (words text) ->
  StronglySorted confidence_ge (allHashtags text).
Proof.
  intros Hreg. unfold allHashtags, merge, slice0.
  apply firstn_sorted, sort_by_confidence_sorted, distinct_Forall.
  apply Forall_app. split; apply Forall_forall; intros h Hh.
  - apply extractKeywords_In in Hh. destruct Hh as ([w v] & He & ->).
    destruct (wordCount_counts text w v Hreg He) as (Hw & -> & _).
    unfold finite_confidence. rewrite keyword_hashtag_confidence; [exact I|].
    destruct (words text); [destruct Hw | cbn; lia].
  - unfold generateCategoryHashtags, slice0 in Hh.
    apply firstn_In, sort_In in Hh. apply unit_confidence_finite.
    pose proof (matchedCategories_unit text) as Hunit.
    rewrite Forall_forall in Hunit. now apply Hunit.
Qed.

(* ================================================================== *)
(** * Worked examples *)

(** A text that starts and ends with white space has an empty first and
    last piece, and a run of separators cuts once. *)
Example split_whitespace_pieces :
  split_whitespace " a  b " = [""; "a"; "b"; ""]
  /\ split_whitespace "" = [""].
Proof. split; reflexivity. Qed.

(** [Object.entries] lists a key that is an array index before the keys
    created earlier. *)
Example extractKeywords_index_key_first :
  words "hello 2024" = ["hello"; "2024"]
  /\ extractKeywords "hello 2024"
     = [ {| tag := "#2024"; confidence := Fin (9 # 10) |};
         {| tag := "#hello"; confidence := Fin (9 # 10) |} ].
Proof. split; now vm_compute. Qed.

(** The token [__proto__] counts among the tokens and never becomes a
    hashtag: the setter inherited from [Object.prototype] drops the write. *)
Example extractKeywords_proto_key :
  words "__proto__ hello" = ["__proto__"; "hello"]
  /\ extractKeywords "__proto__ hello"
     = [ {| tag := "#hello"; confidence := Fin (9 # 10) |} ].
Proof. split; now vm_compute. Qed.

(** The more frequent token comes first, and the pipeline keeps the keyword
    scorer's entry of a tag that both scorers produce. *)
Example technology_innovation :
  extractKeywords "technology technology technology innovation"
  = [ {| tag := "#technology"; confidence := Fin (9 # 10) |};
      {| tag := "#innovation"; confidence := Fin (2 # 4) |} ]
  /\ generateCategoryHashtags "technology technology technology innovation"
     = [ {| tag := "#tech"; confidence := Fin (7 # 10) |};
         {| tag := "#innovation"; confidence := Fin (7 # 10) |};
         {| tag := "#innovation"; confidence := Fin (7 # 10) |};
         {| tag := "#technology"; confidence := Fin (2 # 9) |};
         {| tag := "#creativity"; confidence := Fin (1 # 8) |} ]
  /\ allHashtags "technology technology technology innovation"
     = [ {| tag := "#technology"; confidence := Fin (9 # 10) |};
         {| tag := "#tech"; confidence := Fin (7 # 10) |};
         {| tag := "#innovation"; confidence := Fin (2 # 4) |};
         {| tag := "#creativity"; confidence := Fin (1 # 8) |} ].
Proof. repeat split; now vm_compute. Qed.

(** The truncation to 8 entries can drop the tag of a category that was
    pushed: five categories match here, ten entries are pushed, and the
    tags of [food] and [technology] are not returned. *)
Example truncation_drops_category_tags :
  List.length (matchedCategories "aiming life gym trip food") = 10
  /\ In {| tag := "#technology"; confidence := Fin (1 # 9) |}
       (matchedCategories "aiming life gym trip food")
  /\ generateCategoryHashtags "aiming life gym trip food"
     = [ {| tag := "#ai"; confidence := Fin (7 # 10) |};
         {| tag := "#life"; confidence := Fin (7 # 10) |};
         {| tag := "#gym"; confidence := Fin (7 # 10) |};
         {| tag := "#trip"; confidence := Fin (7 # 10) |};
         {| tag := "#food"; confidence := Fin (7 # 10) |};
         {| tag := "#lifestyle"; confidence := Fin (1 # 8) |};
         {| tag := "#fitness"; confidence := Fin (1 # 8) |};
         {| tag := "#travel"; confidence := Fin (1 # 8) |} ].
Proof.
  split; [now vm_compute|]. split; [|now vm_compute].
  vm_compute. left. reflexivity.
Qed.


(* ================================================================== *)
(** * More about the keyword scorer *)

(** ** [Object.entries] loses and repeats nothing *)

Lemma insert_index_perm (n : N) (e : string * value)
  (l : list (N * (string * value))) :
  Permutation (insert_index n e l) ((n, e) :: l).
Proof.
  induction l as [|[m e'] l IH]; cbn; [reflexivity|].
  destruct (n <? m)%N; [reflexivity|].
  rewrite IH. apply perm_swap.
Qed.

Lemma index_entries_perm (o : object) :
  Permutation (map snd (index_entries o)) (filter is_index_entry o).
Proof.
  induction o as [|[k v] o IH]; cbn; [constructor|].
  unfold is_index_entry at 1. cbn [fst].
  destruct (array_index k); [|exact IH].
  rewrite insert_index_perm. cbn. now constructor.
Qed.

Lemma filter_split_perm {A : Type} (p : A -> bool) (l : list A) :
  Permutation (filter p l ++ filter (fun x => negb (p x)) l) l.
Proof.
  induction l as [|x l IH]; cbn; [constructor|].
  destruct (p x); cbn.
  - now constructor.
  - rewrite <- Permutation_middle. now constructor.
Qed.

Lemma entries_perm (o : object) : Permutation (entries o) o.
Proof.
  unfold entries. rewrite index_entries_perm.
  rewrite <- (filter_split_perm is_index_entry o) at 3.
  apply Permutation_app_head. unfold named_entries.
  erewrite filter_ext; [reflexivity|].
  intros e. unfold is_index_entry. now destruct (array_index (fst e)).
Qed.

(** ** Keys of the count table *)

Lemma increment_NoDup (o : object) (w : string) :
  NoDup (map fst o) -> NoDup (map fst (increment o w)).
Proof.
  intros H. unfold increment.
  destruct (own o w) as [[n|f j]|]; try now apply define_NoDup.
  destruct (String.eqb w proto_key); [exact H|].
  destruct (inherited_function prototype_functions w); now apply define_NoDup.
Qed.

Lemma fold_increment_NoDup (ws : list string) (o : object) :
  NoDup (map fst o) -> NoDup (map fst (fold_left increment ws o)).
Proof.
  revert o. induction ws as [|w ws IH]; intros o H; cbn; [exact H|].
  now apply IH, increment_NoDup.
Qed.

Lemma wordCount_NoDup (text : string) : NoDup (map fst (wordCount text)).
Proof. apply fold_increment_NoDup. constructor. Qed.

Lemma own_In (o : object) (k : string) (v : value) :
  own o k = Some v -> In (k, v) o.
Proof.
  induction o as [|[k' v'] o IH]; cbn; [discriminate|].
  destruct (String.eqb_spec k k') as [->|_].
  - intros [= ->]. now left.
  - intros H. right. now apply IH.
Qed.

Lemma own_define_Some (o : object) (k k' : string) (v : value) :
  own o k' <> None -> own (define o k v) k' <> None.
Proof.
  intros H. destruct (String.eqb_spec k' k) as [->|Hne].
  - now rewrite own_define_same.
  - now rewrite own_define_other.
Qed.

Lemma increment_keeps_key (o : object) (w k : string) :
  own o k <> None -> own (increment o w) k <> None.
Proof.
  intros H. unfold increment.
  destruct (own o w) as [[n|f j]|]; try now apply own_define_Some.
  destruct (String.eqb w proto_key); [exact H|].
  destruct (inherited_function prototype_functions w);
    now apply own_define_Some.
Qed.

Lemma increment_adds_key (o : object) (w : string) :
  w <> proto_key -> own (increment o w) w <> None.
Proof.
  intros Hw. unfold increment.
  destruct (own o w) as [[n|f j]|]; try (rewrite own_define_same; discriminate).
  apply String.eqb_neq in Hw. rewrite Hw.
  destruct (inherited_function prototype_functions w);
    rewrite own_define_same; discriminate.
Qed.

Lemma fold_increment_keeps_key (ws : list string) (o : object) (k : string) :
  own o k <> None -> own (fold_left increment ws o) k <> None.
Proof.
  revert o. induction ws as [|w ws IH]; intros o H; cbn; [exact H|].
  now apply IH, increment_keeps_key.
Qed.

Lemma fold_increment_adds_key (ws : list string) (o : object) (w : string) :
  In w ws -> w <> proto_key -> own (fold_left increment ws o) w <> None.
Proof.
  revert o. induction ws as [|w' ws IH]; intros o Hin Hw; [destruct Hin|].
  cbn. destruct Hin as [->|Hin].
  - now apply fold_increment_keeps_key, increment_adds_key.
  - now apply IH.
Qed.

Lemma increment_no_proto (o : object) (w : string) :
  own o proto_key = None -> own (increment o w) proto_key = None.
Proof.
  intros H. unfold increment.
  destruct (String.eqb_spec w proto_key) as [->|Hne].
  - now rewrite H.
  - assert (Hp : proto_key <> w) by congruence.
    destruct (own o w) as [[n|f j]|];
      [now rewrite own_define_other..|].
    destruct (inherited_function prototype_functions w);
      now rewrite own_define_other.
Qed.

Lemma fold_increment_no_proto (ws : list string) (o : object) :
  own o proto_key = None -> own (fold_left increment ws o) proto_key = None.
Proof.
  revert o. induction ws as [|w ws IH]; intros o H; cbn; [exact H|].
  now apply IH, increment_no_proto.
Qed.

Lemma keyword_tags (total : nat) (l : list (string * value)) :
  map tag (map (keyword_hashtag total) l)
  = map (fun e => ("#" ++ fst e)%string) l.
Proof. now rewrite map_map. Qed.

Lemma extractKeywords_tags (text : string) :
  map tag (extractKeywords text)
  = map (String "#"%char)
      (map fst (firstn 12 (sort by_count (entries (wordCount text))))).
Proof.
  unfold extractKeywords, slice0. now rewrite keyword_tags, map_map.
Qed.

Lemma sorted_entries_perm (text : string) :
  Permutation (sort by_count (entries (wordCount text))) (wordCount text).
Proof. rewrite sort_perm. apply entries_perm. Qed.

Lemma token_is_key (text w : string) :
  In w (words text) -> w <> "__proto__" ->
  In w (map fst (entries (wordCount text))).
Proof.
  intros Hw Hne.
  pose proof (fold_increment_adds_key (words text) empty w Hw Hne) as H.
  destruct (own (fold_left increment (words text) empty) w) as [v|] eqn:E;
    [|contradiction].
  apply own_In in E. apply in_map_iff. exists (w, v). split; [reflexivity|].
  eapply Permutation_in; [symmetry; apply entries_perm | exact E].
Qed.

(** X3. Whatever the text, no two hashtags of the keyword scorer carry the
    same tag: a token is one key of the count table however often it
    occurs. *)
Theorem extractKeywords_tags_distinct (text : string) :
  NoDup (map tag (extractKeywords text)).
Proof.
  rewrite extractKeywords_tags.
  apply Finite.Injective_map_NoDup.
  - intros x y H. now injection H.
  - rewrite <- firstn_map. apply firstn_NoDup.
    eapply Permutation_NoDup; [|apply (wordCount_NoDup text)].
    symmetry. apply Permutation_map, sorted_entries_perm.
Qed.

(** X4. Every token that survives the filter, [__proto__] apart, is a key
    of the count table; when the table has at most 12 keys each of these
    tokens is the tag of a returned hashtag.  The token [__proto__] never
    is, whatever the text. *)
Theorem extractKeywords_every_token_tagged (text : string) :
  (forall w, In w (words text) -> w <> "__proto__" ->
     In w (map fst (entries (wordCount text)))
     /\ (List.length (entries (wordCount text)) <= 12 ->
         In ("#" ++ w)%string (map tag (extractKeywords text))))
  /\ ~ In "#__proto__" (map tag (extractKeywords text)).
Proof.
  split.
  - intros w Hw Hne.
    pose proof (token_is_key text w Hw Hne) as Hkey.
    split; [exact Hkey|]. intros Hlen.
    rewrite extractKeywords_tags. apply in_map.
    rewrite firstn_all2 by (now rewrite sort_length).
    eapply Permutation_in; [|exact Hkey].
    apply Permutation_map. symmetry. apply sort_perm.
  - rewrite extractKeywords_tags. intros H. apply in_map_iff in H.
    destruct H as (k & Hk & Hin). injection Hk as ->.
    rewrite <- firstn_map in Hin. apply firstn_In in Hin.
    apply in_map_iff in Hin. destruct Hin as ([k v] & Hk & Hin).
    cbn in Hk. subst k.
    apply sort_In, entries_In, (In_own _ _ _ (wordCount_NoDup text)) in Hin.
    unfold wordCount in Hin.
    pose proof (fold_increment_no_proto (words text) empty eq_refl) as Hp.
    unfold proto_key in Hp. congruence.
Qed.

Lemma extractKeywords_every_token_tagged_witness :
  In "hello" (words "Hello, wide world")
  /\ "hello" <> "__proto__"
  /\ List.length (entries (wordCount "Hello, wide world")) <= 12
  /\ In "#hello" (map tag (extractKeywords "Hello, wide world")).
Proof.
  assert (Hw : In "hello" (words "Hello, wide world"))
    by (vm_compute; left; reflexivity).
  assert (Hne : "hello" <> "__proto__") by discriminate.
  assert (Hlen : List.length (entries (wordCount "Hello, wide world")) <= 12)
    by (vm_compute; lia).
  split; [exact Hw|]. split; [exact Hne|]. split; [exact Hlen|].
  exact (proj2 (proj1 (extractKeywords_every_token_tagged "Hello, wide world")
                  "hello" Hw Hne) Hlen).
Defined.

(** ** The order of the keyword scorer's result *)

Lemma num_sub_positive (u v : number) :
  is_finite u -> is_finite v ->
  (is_positive (num_sub v u) = true <-> (rational u < rational v)%Q).
Proof.
  destruct u as [p| | |], v as [q| | |]; cbn; try easy.
  intros _ _. unfold Qpos. rewrite negb_true_iff. split.
  - intros H. apply Qnot_le_lt. intros Hle.
    assert (Qle_bool (q - p) 0 = true) by (apply Qle_bool_iff; lra).
    congruence.
  - intros H. destruct (Qle_bool (q - p) 0) eqn:E; [|reflexivity].
    apply Qle_bool_iff in E. lra.
Qed.

Lemma by_count_key (x y : string * value) :
  counted x -> counted y ->
  (is_positive (by_count x y) = true <-> (count_key x < count_key y)%Q).
Proof. apply num_sub_positive. Qed.

Lemma sort_by_count_sorted (l : list (string * value)) :
  Forall counted l ->
  StronglySorted (fun x y => (count_key y <= count_key x)%Q)
    (sort by_count l).
Proof. apply (sort_sorted by_count count_key counted by_count_key). Qed.


Lemma sorted_map_in {A B : Type} (R : A -> A -> Prop) (R' : B -> B -> Prop)
  (f : A -> B) (l : list A) :
  (forall x y, In x l -> In y l -> R x y -> R' (f x) (f y)) ->
  StronglySorted R l -> StronglySorted R' (map f l).
Proof.
  intros Hf Hs. induction Hs as [|x l Hs IH Hall]; cbn; constructor.
  - apply IH. intros a b Ha Hb. apply Hf; now right.
  - rewrite Forall_forall in *. intros b Hb. apply in_map_iff in Hb.
    destruct Hb as (y & <- & Hy). apply Hf; [now left | now right | auto].
Qed.

Lemma regular_entries (text : string) (e : string * value) :
  ~ In "constructor" (words text) ->
  In e (sort by_count (entries (wordCount text))) ->
  In (fst e) (words text)
  /\ e = (fst e, VNum (occurrences (fst e) (words text))).
Proof.
  intros Hreg He. apply sort_In in He. destruct e as [k v]. cbn [fst].
  destruct (wordCount_counts text k v Hreg He) as (Hk & -> & _). now split.
Qed.

Lemma regular_entries_counted (text : string) :
  ~ In "constructor" (words text) ->
  Forall counted (entries (wordCount text)).
Proof.
  intros Hreg. apply Forall_forall. intros [k v] He.
  destruct (wordCount_counts text k v Hreg He) as (_ & -> & _). exact I.
Qed.

Lemma count_key_le (w w' : string) (c c' : nat) :
  (count_key (w', VNum c') <= count_key (w, VNum c))%Q -> c' <= c.
Proof.
  unfold count_key. cbn. rewrite <- Zle_Qle. lia.
Qed.



Lemma frequency_confidence_mono (c c' total : nat) :
  0 < total -> c' <= c ->
  (frequency_confidence c' total <= frequency_confidence c total)%Q.
Proof.
  intros Ht Hc. unfold frequency_confidence.
  assert (Hr : (inject_Z (Z.of_nat c') / inject_Z (Z.of_nat total) * 2
                <= inject_Z (Z.of_nat c) / inject_Z (Z.of_nat total) * 2)%Q).
  { apply Qmult_le_compat_r; [|discriminate].
    unfold Qdiv. apply Qmult_le_compat_r.
    - rewrite <- Zle_Qle. lia.
    - apply Qinv_le_0_compat. change 0%Q with (inject_Z 0).
      rewrite <- Zle_Qle. lia. }
  set (r' := (inject_Z (Z.of_nat c') / inject_Z (Z.of_nat total) * 2)%Q) in *.
  set (r := (inject_Z (Z.of_nat c) / inject_Z (Z.of_nat total) * 2)%Q) in *.
  destruct (Qle_bool r' (9 # 10)) eqn:E', (Qle_bool r (9 # 10)) eqn:E.
  - exact Hr.
  - now apply Qle_bool_iff.
  - apply Qle_bool_iff in E.
    assert (Qle_bool r' (9 # 10) = true)
      by (apply Qle_bool_iff; now apply Qle_trans with r).
    congruence.
  - apply Qle_refl.
Qed.

(** X6. For a text without the token [constructor], the keyword scorer
    returns its hashtags by descending confidence. *)
Theorem extractKeywords_sorted (text : string) :
  ~ In "constructor" (words text) ->
  StronglySorted confidence_ge (extractKeywords text).
Proof.
  intros Hreg. unfold extractKeywords, slice0.
  eapply sorted_map_in;
    [|apply firstn_sorted, sort_by_count_sorted;
      now apply regular_entries_counted].
  intros x y Hx Hy Hle. cbv beta in Hle.
  destruct (regular_entries text x Hreg (firstn_In _ _ _ Hx)) as [Hwx Ex].
  destruct (regular_entries text y Hreg (firstn_In _ _ _ Hy)) as [_ Ey].
  assert (Ht : 0 < List.length (words text)).
  { destruct (words text); [destruct Hwx | cbn; lia]. }
  rewrite Ex, Ey in Hle |- *. apply count_key_le in Hle.
  unfold confidence_ge. rewrite !keyword_hashtag_confidence by exact Ht.
  cbn [rational]. now apply frequency_confidence_mono.
Qed.

Lemma extractKeywords_sorted_witness :
  ~ In "constructor" (words crowded_text)
  /\ StronglySorted confidence_ge (extractKeywords crowded_text).
Proof.
  assert (Hreg : ~ In "constructor" (words crowded_text)).
  { vm_compute. intros H.
    repeat (destruct H as [H|H]; [discriminate H|]). exact H. }
  split; [exact Hreg | exact (extractKeywords_sorted crowded_text Hreg)].
Defined.

Lemma allHashtags_sorted_witness :
  ~ In "constructor" (words "Gym workout for strength")
  /\ StronglySorted confidence_ge (allHashtags "Gym workout for strength").
Proof.
  assert (Hreg : ~ In "constructor" (words "Gym workout for strength")).
  { vm_compute. intros H.
    repeat (destruct H as [H|H]; [discriminate H|]). exact H. }
  split; [exact Hreg|].
  exact (allHashtags_sorted "Gym workout for strength" Hreg).
Defined.

(* ================================================================== *)
(** * More about the category scorer and the pipeline *)

(** ** Blank texts *)

Lemma stripped_lower_char_space (c : ascii) :
  is_space c = true ->
  is_space (if is_word (lower_char c) || is_space (lower_char c)
            then lower_char c else space) = true
  /\ is_space (lower_char c) = true.
Proof. destruct c as [[] [] [] [] [] [] [] []]; cbn; intros H; now split. Qed.

Lemma toLowerCase_blank (s : string) :
  is_blank s = true -> is_blank (toLowerCase s) = true.
Proof.
  induction s as [|c s IH]; [reflexivity|].
  cbn [toLowerCase map_chars is_blank].
  intros H. apply andb_true_iff in H. destruct H as [Hc Hs].
  rewrite (proj2 (stripped_lower_char_space c Hc)). now apply IH.
Qed.

Lemma replace_blank (s : string) :
  is_blank s = true ->
  is_blank (replace_non_word_space (toLowerCase s)) = true.
Proof.
  induction s as [|c s IH]; [reflexivity|].
  cbn [toLowerCase replace_non_word_space map_chars is_blank].
  intros H. apply andb_true_iff in H. destruct H as [Hc Hs].
  rewrite (proj1 (stripped_lower_char_space c Hc)). now apply IH.
Qed.

Lemma split_from_blank (s : string) (in_run : bool) :
  is_blank s = true ->
  Forall (fun piece => piece = EmptyString) (split_from in_run s).
Proof.
  revert in_run. induction s as [|c s IH]; intros in_run H; cbn.
  - now repeat constructor.
  - cbn in H. apply andb_true_iff in H. destruct H as [-> Hs].
    destruct in_run; [now apply IH | constructor; [reflexivity | now apply IH]].
Qed.

Lemma words_blank (text : string) : is_blank text = true -> words text = [].
Proof.
  intros H. unfold words, split_whitespace.
  pose proof (split_from_blank _ false (replace_blank text H)) as Hall.
  induction Hall as [|piece pieces -> _ IH]; [reflexivity | exact IH].
Qed.

Lemma includes_blank (s k : string) (c : ascii) :
  is_blank s = true -> is_space c = false ->
  includes s (String c k) = false.
Proof.
  intros Hs Hc. induction s as [|d s IH]; [reflexivity|].
  cbn in Hs. apply andb_true_iff in Hs. destruct Hs as [Hd Hs].
  cbn. destruct (ascii_dec c d) as [->|_]; [congruence|].
  now apply IH.
Qed.

Lemma is_plain_not_space (c : ascii) : is_plain c = true -> is_space c = false.
Proof. destruct c as [[] [] [] [] [] [] [] []]; cbn; congruence. Qed.

Lemma table_plain_true : table_plain = true.
Proof. reflexivity. Qed.

Lemma table_names_plain (category : string) (keywords : list string) :
  In (category, keywords) categories ->
  (plain category = true /\ category <> EmptyString)
  /\ forall keyword, In keyword keywords ->
       plain keyword = true /\ keyword <> EmptyString.
Proof.
  intros Hc. pose proof table_plain_true as H. unfold table_plain in H.
  rewrite forallb_forall in H. specialize (H _ Hc). cbn [fst snd] in H.
  apply andb_true_iff in H. destruct H as [Hcat Hkw].
  apply andb_true_iff in Hcat. destruct Hcat as [Hp Hn].
  split.
  - split; [exact Hp|]. apply negb_true_iff, String.eqb_neq in Hn. exact Hn.
  - intros keyword Hk. rewrite forallb_forall in Hkw. specialize (Hkw _ Hk).
    apply andb_true_iff in Hkw. destruct Hkw as [Hp' Hn'].
    split; [exact Hp'|]. now apply negb_true_iff, String.eqb_neq in Hn'.
Qed.

Lemma matches_blank (lowerText category : string) (keywords : list string) :
  In (category, keywords) categories ->
  is_blank lowerText = true -> matches lowerText keywords = [].
Proof.
  intros Hc Hb. unfold matches.
  destruct (table_names_plain _ _ Hc) as [_ Hkw]. clear Hc.
  induction keywords as [|k ks IH]; [reflexivity|]. cbn [filter].
  destruct (Hkw k (or_introl eq_refl)) as [Hp Hn].
  destruct k as [|c k]; [now elim Hn|]. cbn in Hp.
  apply andb_true_iff in Hp. destruct Hp as [Hcp _].
  rewrite (includes_blank lowerText k c Hb (is_plain_not_space c Hcp)).
  apply IH. intros keyword Hk. apply Hkw. now right.
Qed.

Lemma flat_map_nil {A B : Type} (f : A -> list B) (l : list A) :
  (forall x, In x l -> f x = []) -> flat_map f l = [].
Proof.
  induction l as [|x l IH]; intros H; cbn; [reflexivity|].
  rewrite (H x (or_introl eq_refl)). apply IH. intros y Hy. apply H. now right.
Qed.

Lemma matchedCategories_blank (text : string) :
  is_blank text = true -> matchedCategories text = [].
Proof.
  intros H. rewrite matchedCategories_flat_map. apply flat_map_nil.
  intros [category keywords] Hc. unfold category_block. cbn [fst snd].
  now rewrite (matches_blank _ category keywords Hc (toLowerCase_blank _ H)).
Qed.

(** X7. A text made of white space only (the empty text included) gives
    no hashtag at all: neither scorer returns an entry, and the pipeline
    returns the empty array. *)
Theorem allHashtags_blank (text : string) :
  is_blank text = true ->
  extractKeywords text = []
  /\ generateCategoryHashtags text = []
  /\ allHashtags text = [].
Proof.
  intros H.
  assert (Hk : extractKeywords text = []).
  { unfold extractKeywords, wordCount. now rewrite (words_blank text H). }
  assert (Hc : generateCategoryHashtags text = []).
  { unfold generateCategoryHashtags. now rewrite (matchedCategories_blank text H). }
  split; [exact Hk|]. split; [exact Hc|].
  unfold allHashtags. now rewrite Hk, Hc.
Qed.

Lemma allHashtags_blank_witness :
  is_blank blank_text = true /\ allHashtags blank_text = [].
Proof.
  assert (H : is_blank blank_text = true) by reflexivity.
  split; [exact H | exact (proj2 (proj2 (allHashtags_blank blank_text H)))].
Defined.

(** ** Letter case *)

Lemma lower_char_idempotent (c : ascii) :
  lower_char (lower_char c) = lower_char c.
Proof. destruct c as [[] [] [] [] [] [] [] []]; reflexivity. Qed.

Lemma toLowerCase_idempotent (s : string) :
  toLowerCase (toLowerCase s) = toLowerCase s.
Proof.
  induction s as [|c s IH]; [reflexivity|].
  cbn [toLowerCase map_chars].
  rewrite lower_char_idempotent. f_equal. exact IH.
Qed.

Lemma same_lower_case (t1 t2 : string) :
  toLowerCase t1 = toLowerCase t2 ->
  extractKeywords t1 = extractKeywords t2
  /\ generateCategoryHashtags t1 = generateCategoryHashtags t2.
Proof.
  intros H.
  assert (Hw : words t1 = words t2) by (unfold words; now rewrite H).
  split.
  - unfold extractKeywords, wordCount. now rewrite Hw.
  - unfold generateCategoryHashtags, matchedCategories. now rewrite H.
Qed.

(** X8. The hashtags do not depend on the letter case of the text: two
    texts with the same lower case give the same arrays, and a text gives
    what its lower case gives. *)
Theorem allHashtags_case_insensitive :
  (forall t1 t2, toLowerCase t1 = toLowerCase t2 ->
     extractKeywords t1 = extractKeywords t2
     /\ generateCategoryHashtags t1 = generateCategoryHashtags t2
     /\ allHashtags t1 = allHashtags t2)
  /\ forall text, allHashtags (toLowerCase text) = allHashtags text.
Proof.
  assert (H : forall t1 t2, toLowerCase t1 = toLowerCase t2 ->
                extractKeywords t1 = extractKeywords t2
                /\ generateCategoryHashtags t1 = generateCategoryHashtags t2
                /\ allHashtags t1 = allHashtags t2).
  { intros t1 t2 Ht. destruct (same_lower_case t1 t2 Ht) as [Hk Hc].
    split; [exact Hk|]. split; [exact Hc|].
    unfold allHashtags. now rewrite Hk, Hc. }
  split; [exact H|].
  intros text. apply H, toLowerCase_idempotent.
Qed.

Lemma allHashtags_case_insensitive_witness :
  toLowerCase "GYM Workout" = toLowerCase "gym workOUT"
  /\ allHashtags "GYM Workout" = allHashtags "gym workOUT".
Proof.
  assert (H : toLowerCase "GYM Workout" = toLowerCase "gym workOUT")
    by reflexivity.
  split; [exact H|].
  exact (proj2 (proj2 (proj1 allHashtags_case_insensitive _ _ H))).
Defined.

(** ** When the category scorer returns nothing *)

Lemma filter_nil {A : Type} (p : A -> bool) (l : list A) :
  filter p l = [] <-> forall x, In x l -> p x = false.
Proof.
  split.
  - intros H x Hx. destruct (p x) eqn:E; [|reflexivity].
    assert (Hin : In x (filter p l)) by (apply filter_In; now split).
    rewrite H in Hin. destruct Hin.
  - intros H. induction l as [|x l IH]; [reflexivity|]. cbn.
    rewrite (H x (or_introl eq_refl)). apply IH. intros y Hy. apply H.
    now right.
Qed.

Lemma flat_map_nil_inv {A B : Type} (f : A -> list B) (l : list A) :
  flat_map f l = [] -> forall x, In x l -> f x = [].
Proof.
  intros H x Hx. destruct (f x) as [|y ys] eqn:E; [reflexivity|].
  assert (Hin : In y (flat_map f l)).
  { apply in_flat_map. exists x. split; [exact Hx|]. rewrite E. now left. }
  rewrite H in Hin. destruct Hin.
Qed.

Lemma category_block_nil (lowerText : string) (entry : string * list string) :
  category_block lowerText entry = [] <-> matches lowerText (snd entry) = [].
Proof.
  unfold category_block. destruct (matches lowerText (snd entry)); split;
    trivial; discriminate.
Qed.

Lemma generateCategoryHashtags_nil (text : string) :
  generateCategoryHashtags text = [] <-> matchedCategories text = [].
Proof.
  unfold generateCategoryHashtags, slice0. split.
  - intros H. pose proof (sort_length by_confidence (matchedCategories text)) as Hl.
    destruct (sort by_confidence (matchedCategories text)); [|discriminate].
    destruct (matchedCategories text); [reflexivity | discriminate].
  - intros ->. reflexivity.
Qed.

(** X9. The category scorer returns the empty array exactly when no keyword
    of the table occurs in the text in lower case. *)
Theorem generateCategoryHashtags_empty_iff (text : string) :
  generateCategoryHashtags text = []
  <-> forall category keywords keyword,
        In (category, keywords) categories -> In keyword keywords ->
        includes (toLowerCase text) keyword = false.
Proof.
  rewrite generateCategoryHashtags_nil, matchedCategories_flat_map. split.
  - intros H category keywords keyword Hc Hk.
    pose proof (flat_map_nil_inv _ _ H _ Hc) as Hb.
    apply category_block_nil in Hb. cbn [snd] in Hb.
    unfold matches in Hb. rewrite filter_nil in Hb. now apply Hb.
  - intros H. apply flat_map_nil. intros [category keywords] Hc.
    apply category_block_nil. cbn [snd]. unfold matches. apply filter_nil.
    intros keyword Hk. now apply (H category keywords).
Qed.

Lemma generateCategoryHashtags_empty_iff_witness :
  generateCategoryHashtags "hello world" = []
  /\ includes (toLowerCase "hello world") "gym" = false.
Proof.
  assert (H : generateCategoryHashtags "hello world" = []) by reflexivity.
  split; [exact H|].
  apply (proj1 (generateCategoryHashtags_empty_iff "hello world") H
           "fitness" ["fitness"; "workout"; "exercise"; "health"; "gym";
                      "training"; "muscle"; "strength"]);
    cbn; tauto.
Defined.

(** ** The smallest confidence of the category scorer *)

Lemma table_short_true : table_short = true.
Proof. reflexivity. Qed.

Lemma ratio_at_least_ninth (m k : nat) :
  1 <= m -> m <= k -> k <= 9 ->
  (1 # 9 <= inject_Z (Z.of_nat m) / inject_Z (Z.of_nat k) <= 1)%Q.
Proof.
  intros H1 Hmk Hk.
  split; [|apply ratio_in_unit; lia].
  apply Qle_shift_div_l.
  - change 0%Q with (inject_Z 0). rewrite <- Zlt_Qlt. lia.
  - unfold Qle, Qmult, inject_Z. cbn [Qnum Qden]. lia.
Qed.

Lemma category_block_ninth (lowerText : string)
  (entry : string * list string) :
  In entry categories ->
  Forall ninth_confidence (category_block lowerText entry).
Proof.
  intros Hc. unfold category_block.
  pose proof (matches_length lowerText (snd entry)) as Hlen.
  assert (Hshort : List.length (snd entry) <= 9).
  { pose proof table_short_true as H. unfold table_short in H.
    rewrite forallb_forall in H. now apply Nat.leb_le, H. }
  destruct (matches lowerText (snd entry)) as [|k ks]; constructor.
  - unfold ninth_confidence, category_hashtag. cbn [confidence].
    cbn [List.length] in Hlen.
    rewrite num_div_of_nat by lia. eexists. split; [reflexivity|].
    apply ratio_at_least_ninth; cbn [List.length]; lia.
  - apply Forall_forall. intros h Hh. apply in_map_iff in Hh.
    destruct Hh as (keyword & <- & _).
    exists (7 # 10)%Q. split; [reflexivity|]. split; discriminate.
Qed.

(** X10. Every hashtag the category scorer returns has a confidence of at
    least 1/9 (and at most 1): a category is pushed with at least one
    matched keyword out of at most 9, and a keyword with 0.7. *)
Theorem generateCategoryHashtags_confidence_floor (text : string) :
  Forall ninth_confidence (generateCategoryHashtags text).
Proof.
  apply Forall_forall. intros h Hh.
  unfold generateCategoryHashtags, slice0 in Hh.
  apply firstn_In, sort_In in Hh.
  rewrite matchedCategories_flat_map in Hh. apply in_flat_map in Hh.
  destruct Hh as (entry & Hc & Hh).
  pose proof (category_block_ninth (toLowerCase text) entry Hc) as Hall.
  rewrite Forall_forall in Hall. now apply Hall.
Qed.

(* ================================================================== *)
(** * More about the merge *)

Lemma merge_In_first (a b : list GeneratedHashtag) (limit : nat)
  (h : GeneratedHashtag) :
  In h (merge a b limit) -> find (same_tag h) (a ++ b) = Some h.
Proof.
  unfold merge, slice0. intros Hin. apply firstn_In, sort_In in Hin.
  rewrite distinct_first_occurrences in Hin.
  now apply first_occurrences_sound in Hin.
Qed.

Lemma merge_keys_distinct (a b : list GeneratedHashtag) (limit : nat) :
  NoDup (map tag_key (merge a b limit)).
Proof.
  unfold merge, slice0. rewrite <- firstn_map. apply firstn_NoDup.
  eapply Permutation_NoDup.
  - apply Permutation_map. symmetry. apply sort_perm.
  - rewrite distinct_first_occurrences. apply first_occurrences_NoDup.
Qed.

(** X11. The merge loses a tag by truncation only: when the number of
    distinct tags does not exceed the bound, every entry of either array
    has its tag, up to case, in the result. *)
Theorem merge_keeps_every_tag (a b : list GeneratedHashtag) (limit : nat)
  (x : GeneratedHashtag) :
  List.length (distinct (a ++ b)) <= limit ->
  In x (a ++ b) ->
  exists h, In h (merge a b limit) /\ tag_key h = tag_key x.
Proof.
  intros Hlen Hx.
  destruct (first_occurrences_complete [] (a ++ b) x Hx)
    as [H|(h & Hh & Hkey)]; [discriminate|].
  exists h. split; [|exact Hkey].
  unfold merge, slice0. rewrite firstn_all2 by (now rewrite sort_length).
  apply sort_In. now rewrite distinct_first_occurrences.
Qed.

Lemma merge_keeps_every_tag_witness :
  List.length (distinct (sample_keywords ++ sample_categories)) <= 15
  /\ In {| tag := "#ai"; confidence := Fin (7 # 10) |}
       (sample_keywords ++ sample_categories)
  /\ exists h, In h (merge sample_keywords sample_categories 15)
               /\ tag_key h = "#ai".
Proof.
  assert (Hlen : List.length (distinct (sample_keywords ++ sample_categories))
                 <= 15) by (vm_compute; lia).
  assert (Hx : In {| tag := "#ai"; confidence := Fin (7 # 10) |}
                 (sample_keywords ++ sample_categories))
    by (cbn; tauto).
  split; [exact Hlen|]. split; [exact Hx|].
  exact (merge_keeps_every_tag sample_keywords sample_categories 15 _ Hlen Hx).
Defined.

(** ** Merging what is already merged *)

Lemma insert_front (x : GeneratedHashtag) (l : list GeneratedHashtag) :
  finite_confidence x -> Forall finite_confidence l ->
  Forall (confidence_ge x) l ->
  insert by_confidence x l = x :: l.
Proof.
  intros Hx Hl Hge. destruct l as [|y l]; [reflexivity|]. cbn.
  inversion Hl as [|? ? Hy _]; subst. inversion Hge as [|? ? Hxy _]; subst.
  destruct (is_positive (by_confidence x y)) eqn:E; [|reflexivity].
  apply by_confidence_key in E; trivial. unfold confidence_ge in Hxy.
  exfalso. apply (Qlt_not_le _ _ E Hxy).
Qed.

Lemma sort_sorted_same (l : list GeneratedHashtag) :
  Forall finite_confidence l -> StronglySorted confidence_ge l ->
  sort by_confidence l = l.
Proof.
  intros Hfin Hs. induction Hs as [|x l Hs IH Hall]; [reflexivity|].
  inversion Hfin as [|? ? Hx Hl]; subst. cbn. rewrite (IH Hl).
  now apply insert_front.
Qed.

Lemma first_occurrences_same (seen l : list GeneratedHashtag) :
  (forall x, In x l -> existsb (same_tag x) seen = false) ->
  NoDup (map tag_key l) ->
  first_occurrences seen l = l.
Proof.
  revert seen. induction l as [|x l IH]; intros seen Hseen Hnd;
    [reflexivity|].
  cbn. rewrite (Hseen x (or_introl eq_refl)). f_equal.
  cbn in Hnd. inversion Hnd as [|? ? Hnot Hnd']; subst.
  apply IH; [|exact Hnd'].
  intros y Hy. rewrite existsb_app. apply orb_false_iff. split.
  - apply Hseen. now right.
  - cbn. rewrite orb_false_r. destruct (same_tag y x) eqn:E; [|reflexivity].
    apply same_tag_key in E. exfalso. apply Hnot. rewrite E.
    now apply in_map.
Qed.

Lemma merge_sorted_distinct (a : list GeneratedHashtag) (n : nat) :
  Forall finite_confidence a ->
  StronglySorted confidence_ge a ->
  NoDup (map tag_key a) ->
  merge a [] n = firstn n a.
Proof.
  intros Hfin Hs Hnd. unfold merge, slice0. rewrite app_nil_r.
  rewrite distinct_first_occurrences, first_occurrences_same;
    [|reflexivity|exact Hnd].
  now rewrite sort_sorted_same.
Qed.

(** X12. An array of finite confidences that is already sorted, without
    two tags equal up to case, passes through the merge unchanged but for
    the truncation; in particular merging the result of a merge once more,
    with the same bound, gives it back. *)
Theorem merge_idempotent :
  (forall (a : list GeneratedHashtag) (n : nat),
      Forall finite_confidence a ->
      StronglySorted confidence_ge a ->
      NoDup (map tag_key a) ->
      merge a [] n = firstn n a)
  /\ (forall (a b : list GeneratedHashtag) (n : nat),
        Forall finite_confidence (a ++ b) ->
        merge (merge a b n) [] n = merge a b n).
Proof.
  split; [exact merge_sorted_distinct|].
  intros a b n Hfin.
  assert (Hd : Forall finite_confidence (distinct (a ++ b)))
    by (now apply distinct_Forall).
  rewrite merge_sorted_distinct.
  - apply firstn_all2. unfold merge, slice0. apply firstn_le_length.
  - apply Forall_forall. intros h Hh. unfold merge, slice0 in Hh.
    apply firstn_In, sort_In in Hh. rewrite Forall_forall in Hd.
    now apply Hd.
  - unfold merge, slice0. now apply firstn_sorted, sort_by_confidence_sorted.
  - apply merge_keys_distinct.
Qed.

Lemma merge_idempotent_witness :
  Forall finite_confidence (sample_keywords ++ sample_categories)
  /\ merge (merge sample_keywords sample_categories 15) [] 15
     = merge sample_keywords sample_categories 15.
Proof.
  assert (Hfin : Forall finite_confidence
                   (sample_keywords ++ sample_categories))
    by (repeat constructor).
  split; [exact Hfin|].
  exact (proj2 merge_idempotent sample_keywords sample_categories 15 Hfin).
Defined.

(* ================================================================== *)
(** * The tags of the pipeline *)

(** ** Tokens are plain *)

Lemma stripped_lower_char_plain (c : ascii) :
  let d := if is_word (lower_char c) || is_space (lower_char c)
           then lower_char c else space in
  is_plain d || is_space d = true.
Proof. destruct c as [[] [] [] [] [] [] [] []]; reflexivity. Qed.

Lemma replace_plain_or_space (s : string) :
  plain_or_space (replace_non_word_space (toLowerCase s)) = true.
Proof.
  induction s as [|c s IH]; [reflexivity|].
  cbn [toLowerCase replace_non_word_space map_chars plain_or_space].
  rewrite (stripped_lower_char_plain c). exact IH.
Qed.

Lemma split_from_plain (s : string) (in_run : bool) :
  plain_or_space s = true ->
  Forall (fun piece => plain piece = true) (split_from in_run s).
Proof.
  revert in_run. induction s as [|c s IH]; intros in_run H; cbn.
  - now repeat constructor.
  - cbn in H. apply andb_true_iff in H. destruct H as [Hc Hs].
    destruct (is_space c) eqn:E.
    + destruct in_run; [now apply IH | constructor; [reflexivity|now apply IH]].
    + rewrite orb_false_r in Hc. specialize (IH false Hs).
      destruct (split_from false s) as [|piece pieces].
      * repeat constructor. cbn. now rewrite Hc.
      * inversion IH as [|? ? Hp Hps]; subst. constructor; [|exact Hps].
        cbn. now rewrite Hc, Hp.
Qed.

Lemma words_plain (text w : string) :
  In w (words text) -> plain w = true /\ w <> EmptyString.
Proof.
  intros H. split.
  - unfold words, split_whitespace in H. apply filter_In in H.
    destruct H as [H _].
    pose proof (split_from_plain _ false (replace_plain_or_space text)) as Hall.
    rewrite Forall_forall in Hall. now apply Hall.
  - apply words_meaningful in H. destruct H as [Hlen _].
    intros ->. cbn in Hlen. lia.
Qed.

Lemma is_plain_lower (c : ascii) : is_plain c = true -> lower_char c = c.
Proof. destruct c as [[] [] [] [] [] [] [] []]; cbn; congruence. Qed.

Lemma plain_lower (s : string) : plain s = true -> toLowerCase s = s.
Proof.
  induction s as [|c s IH]; [reflexivity|]. cbn [plain toLowerCase map_chars].
  intros H. apply andb_true_iff in H. destruct H as [Hc Hs].
  rewrite (is_plain_lower c Hc). f_equal. now apply IH.
Qed.

Lemma plain_spaceless (s : string) : plain s = true -> spaceless s = true.
Proof.
  induction s as [|c s IH]; [reflexivity|]. cbn.
  intros H. apply andb_true_iff in H. destruct H as [Hc Hs].
  now rewrite (is_plain_not_space c Hc), IH.
Qed.

(** ** Where the hashtags come from *)

Lemma extractKeywords_tag_plain (text : string) (h : GeneratedHashtag) :
  In h (extractKeywords text) ->
  exists w, tag h = ("#" ++ w)%string /\ plain w = true /\ w <> EmptyString.
Proof.
  intros H. apply extractKeywords_In in H. destruct H as (e & He & ->).
  exists (fst e). split; [reflexivity|].
  apply (words_plain text). now apply wordCount_keys.
Qed.

Lemma matchedCategories_tag_plain (text : string) (h : GeneratedHashtag) :
  In h (matchedCategories text) ->
  exists w, tag h = ("#" ++ w)%string /\ plain w = true /\ w <> EmptyString.
Proof.
  rewrite matchedCategories_flat_map. intros H. apply in_flat_map in H.
  destruct H as ([category keywords] & Hc & Hh).
  destruct (table_names_plain _ _ Hc) as [Hcat Hkw].
  unfold category_block in Hh. cbn [fst snd] in Hh.
  destruct (matches (toLowerCase text) keywords) as [|k ks] eqn:E;
    [destruct Hh|].
  destruct Hh as [<-|Hh].
  - exists category. split; [reflexivity | exact Hcat].
  - apply in_map_iff in Hh. destruct Hh as (keyword & <- & Hk).
    exists keyword. split; [reflexivity|]. apply Hkw.
    apply firstn_In in Hk. rewrite <- E in Hk. unfold matches in Hk.
    now apply filter_In in Hk.
Qed.

Lemma allHashtags_origin (text : string) (h : GeneratedHashtag) :
  In h (allHashtags text) ->
  In h (extractKeywords text) \/ In h (matchedCategories text).
Proof.
  unfold allHashtags, merge, slice0. intros H.
  apply firstn_In, sort_In, distinct_In, in_app_or in H.
  destruct H as [H|H]; [now left|]. right.
  unfold generateCategoryHashtags, slice0 in H.
  now apply firstn_In, sort_In in H.
Qed.

Lemma allHashtags_tag_plain (text : string) (h : GeneratedHashtag) :
  In h (allHashtags text) ->
  exists w, tag h = ("#" ++ w)%string /\ plain w = true /\ w <> EmptyString.
Proof.
  intros H. apply allHashtags_origin in H. destruct H as [H|H].
  - now apply (extractKeywords_tag_plain text).
  - now apply (matchedCategories_tag_plain text).
Qed.

Lemma hash_plain_key (h : GeneratedHashtag) (w : string) :
  tag h = ("#" ++ w)%string -> plain w = true -> tag_key h = tag h.
Proof.
  intros Ht Hp. unfold tag_key. rewrite Ht. cbn [append toLowerCase map_chars].
  change (lower_char "#") with "#"%char. f_equal. now apply plain_lower.
Qed.

(** X13. Every hashtag of the pipeline has a tag made of [#] followed by a
    non-empty word of the characters [[a-z0-9_]]: no capital, no white
    space.  Hence the tags of the result are pairwise different as
    written, not only up to case. *)
Theorem allHashtags_tags_well_formed (text : string) :
  (forall h, In h (allHashtags text) ->
     exists w, tag h = ("#" ++ w)%string
               /\ plain w = true /\ w <> EmptyString)
  /\ NoDup (map tag (allHashtags text)).
Proof.
  split; [apply allHashtags_tag_plain|].
  erewrite map_ext_in; [apply (merge_keys_distinct _ _ 15)|].
  intros h Hh. fold (allHashtags text) in Hh.
  destruct (allHashtags_tag_plain text h Hh) as (w & Ht & Hp & _).
  symmetry. now apply (hash_plain_key h w).
Qed.

Lemma allHashtags_tags_well_formed_witness :
  In {| tag := "#gym"; confidence := Fin (7 # 10) |}
    (allHashtags "Gym workout for strength")
  /\ exists w, "#gym" = ("#" ++ w)%string
               /\ plain w = true /\ w <> EmptyString.
Proof.
  assert (H : In {| tag := "#gym"; confidence := Fin (7 # 10) |}
                (allHashtags "Gym workout for strength")).
  { vm_compute. do 2 right. left. reflexivity. }
  split; [exact H|].
  exact (proj1 (allHashtags_tags_well_formed "Gym workout for strength") _ H).
Defined.

(* ================================================================== *)
(** * Copying the hashtags *)

Lemma append_empty (s : string) : (s ++ "")%string = s.
Proof. induction s as [|c s IH]; cbn; [reflexivity | now rewrite IH]. Qed.

Lemma split_from_word (s t : string) (in_run : bool) :
  spaceless s = true -> s <> EmptyString ->
  split_from in_run (s ++ t)
  = match split_from false t with
    | piece :: pieces => (s ++ piece)%string :: pieces
    | [] => [s]
    end.
Proof.
  revert in_run. induction s as [|c s IH]; intros in_run Hs Hne;
    [now elim Hne|].
  cbn in Hs. apply andb_true_iff in Hs. destruct Hs as [Hc Hs].
  apply negb_true_iff in Hc. cbn [append split_from]. rewrite Hc.
  destruct s as [|d s].
  - cbn [append]. now destruct (split_from false t).
  - rewrite (IH false Hs) by discriminate.
    now destruct (split_from false t).
Qed.

Lemma split_join (l : list string) :
  l <> [] ->
  Forall (fun s => spaceless s = true /\ s <> EmptyString) l ->
  forall in_run, split_from in_run (join " " l) = l.
Proof.
  intros Hne Hall. induction Hall as [|x l [Hx Hxn] Hall IH];
    [now elim Hne|].
  intros in_run. destruct l as [|y l].
  - cbn [join]. rewrite <- (append_empty x) at 1.
    rewrite (split_from_word x "" in_run Hx Hxn). cbn.
    now rewrite append_empty.
  - change (join " " (x :: y :: l))
      with (x ++ String " " (join " " (y :: l)))%string.
    rewrite (split_from_word x _ in_run Hx Hxn).
    cbn [split_from]. change (is_space " ") with true. cbv iota.
    rewrite append_empty. f_equal. apply IH. discriminate.
Qed.

(** X14. When the results card is rendered for the hashtags of a text,
    [Copy All] puts on the clipboard a line that, cut at white space, gives
    back the tags shown, in their order: no tag is empty or holds white
    space. *)
Theorem copyAllHashtags_round_trip (text : string) (st : State)
  (b : Browser) :
  hashtags st = allHashtags text ->
  results_shown st = true ->
  split_whitespace (clipboard (copyAllHashtags st b)) = map tag (hashtags st).
Proof.
  intros Hst Hshown. unfold copyAllHashtags, split_whitespace.
  cbn [clipboard]. apply split_join.
  - unfold results_shown in Hshown. apply Nat.ltb_lt in Hshown.
    destruct (hashtags st); [cbn in Hshown; lia | discriminate].
  - apply Forall_forall. intros s Hs. apply in_map_iff in Hs.
    destruct Hs as (h & <- & Hh). rewrite Hst in Hh.
    destruct (allHashtags_tag_plain text h Hh) as (w & -> & Hp & _).
    split; [|discriminate]. cbn. now apply plain_spaceless.
Qed.

Lemma copyAllHashtags_round_trip_witness :
  hashtags {| inputText := "aiming";
              hashtags := allHashtags "aiming";
              isLoading := false |} = allHashtags "aiming"
  /\ results_shown {| inputText := "aiming";
                      hashtags := allHashtags "aiming";
                      isLoading := false |} = true
  /\ split_whitespace
       (clipboard
          (copyAllHashtags {| inputText := "aiming";
                              hashtags := allHashtags "aiming";
                              isLoading := false |}
             {| clipboard := ""; toasts := [] |}))
     = ["#aiming"; "#ai"; "#technology"].
Proof.
  split; [reflexivity|]. split; [reflexivity|].
  exact (copyAllHashtags_round_trip "aiming"
           {| inputText := "aiming";
              hashtags := allHashtags "aiming";
              isLoading := false |}
           {| clipboard := ""; toasts := [] |} eq_refl eq_refl).
Defined.

(* ================================================================== *)
(** * The handler and the two scorers together *)


(** X16. For a text without the token [constructor], a hashtag of the
    pipeline whose tag is also a tag of the keyword scorer is the keyword
    scorer's entry: its confidence is the one computed from the frequency
    of the token, not the 0.7 or the ratio of the category scorer. *)
Theorem allHashtags_prefers_frequency (text : string) (h : GeneratedHashtag) :
  ~ In "constructor" (words text) ->
  In h (allHashtags text) ->
  In (tag h) (map tag (extractKeywords text)) ->
  In h (extractKeywords text)
  /\ exists w,
       In w (words text)
       /\ tag h = ("#" ++ w)%string
       /\ confidence h
          = Fin (frequency_confidence (occurrences w (words text))
                   (List.length (words text))).
Proof.
  intros Hreg Hh Htag. unfold allHashtags in Hh.
  apply merge_In_first in Hh.
  assert (Hex : existsb (same_tag h) (extractKeywords text) = true).
  { apply in_map_iff in Htag. destruct Htag as (k & Hk & Hin).
    apply existsb_exists. exists k. split; [exact Hin|].
    apply same_tag_key. unfold tag_key. now rewrite Hk. }
  apply find_existsb in Hex. destruct Hex as [x Hx].
  rewrite find_app, Hx in Hh. injection Hh as ->.
  apply find_some in Hx. destruct Hx as [Hin _].
  split; [exact Hin|].
  apply extractKeywords_In in Hin. destruct Hin as ([w v] & He & ->).
  destruct (wordCount_counts text w v Hreg He) as (Hw & -> & _).
  exists w. split; [exact Hw|]. split; [reflexivity|].
  apply keyword_hashtag_confidence.
  destruct (words text); [destruct Hw | cbn; lia].
Qed.

Lemma allHashtags_prefers_frequency_witness :
  ~ In "constructor" (words "training")
  /\ In {| tag := "#training"; confidence := Fin (9 # 10) |}
       (allHashtags "training")
  /\ In "#training" (map tag (extractKeywords "training"))
  /\ In {| tag := "#training"; confidence := Fin (9 # 10) |}
       (extractKeywords "training").
Proof.
  assert (Hreg : ~ In "constructor" (words "training")).
  { vm_compute. intros H.
    repeat (destruct H as [H|H]; [discriminate H|]). exact H. }
  assert (Hh : In {| tag := "#training"; confidence := Fin (9 # 10) |}
                 (allHashtags "training"))
    by (vm_compute; left; reflexivity).
  assert (Htag : In "#training" (map tag (extractKeywords "training")))
    by (vm_compute; left; reflexivity).
  split; [exact Hreg|]. split; [exact Hh|]. split; [exact Htag|].
  exact (proj1 (allHashtags_prefers_frequency "training" _ Hreg Hh Htag)).
Defined.
